(** * The L'Oreal chat widget: transcript and send cycle

    A shallow embedding of the final revision of [script.js] (the chat
    client that posts the running transcript to a Cloudflare Worker and
    renders the exchange as bubbles), and the properties of its send cycle.

    The page runs on one thread.  [handleSend] is an [async] function with a
    single point where other events can run before it goes on: the [await]
    of [getChatCompletion].  Everything before the request leaves is one
    synchronous block, and everything after the reply has been read is one
    synchronous block, so an activation is embedded as two state
    transformers, [handleSend] (up to the [await]) and [handleSend_resume]
    (the rest of [try], [catch] and [finally]), with the event loop of the
    host choosing what runs in between.  Between the settlement of the
    [fetch] and the reading of the body ([resp.text()], [resp.json()]) the
    script touches none of its state, so the whole exchange is delivered to
    [handleSend_resume] as one value.

    The model follows the last revision of the script; the one before it
    differs in [addMessage] (no [new] class, no timer) and in
    [getChatCompletion] (no [console.info]) only. *)

From Stdlib Require Import List NArith Bool String Ascii Lia Arith.
From Stdlib Require Import Floats.PrimFloat.
Import ListNotations.

Set Implicit Arguments.
Set Warnings "-register-all".

(** ** Strings of the script

    A JavaScript string is a sequence of 16-bit code units; [trim] and
    [===] work on code units, so they are kept as numbers. *)

Module Js.

Definition jsstring := list N.

(** A string literal of the source whose characters are all ASCII. *)
Definition lit (s : string) : jsstring :=
  map N_of_ascii (list_ascii_of_string s).

Definition streq (a b : jsstring) : bool :=
  if list_eq_dec N.eq_dec a b then true else false.

(** [WhiteSpace] and [LineTerminator] of ECMAScript: what
    [String.prototype.trim] strips. *)
Definition isWhiteSpace (c : N) : bool :=
  ((c =? 9) || (c =? 10) || (c =? 11) || (c =? 12) || (c =? 13)
   || (c =? 32) || (c =? 160) || (c =? 5760)
   || ((8192 <=? c) && (c <=? 8202))
   || (c =? 8232) || (c =? 8233) || (c =? 8239) || (c =? 8287)
   || (c =? 12288) || (c =? 65279))%N.

Fixpoint trimStart (s : jsstring) : jsstring :=
  match s with
  | [] => []
  | c :: s' => if isWhiteSpace c then trimStart s' else s
  end.

Definition trimEnd (s : jsstring) : jsstring := rev (trimStart (rev s)).

Definition trim (s : jsstring) : jsstring := trimEnd (trimStart s).

(** The decimal digits of a template substitution [${n}] for a natural
    number [n] ([resp.status] is one). *)
Fixpoint digits (d : Decimal.uint) : jsstring :=
  match d with
  | Decimal.Nil => []
  | Decimal.D0 d => 48%N :: digits d
  | Decimal.D1 d => 49%N :: digits d
  | Decimal.D2 d => 50%N :: digits d
  | Decimal.D3 d => 51%N :: digits d
  | Decimal.D4 d => 52%N :: digits d
  | Decimal.D5 d => 53%N :: digits d
  | Decimal.D6 d => 54%N :: digits d
  | Decimal.D7 d => 55%N :: digits d
  | Decimal.D8 d => 56%N :: digits d
  | Decimal.D9 d => 57%N :: digits d
  end.

Definition ofNumber (n : N) : jsstring := digits (N.to_uint n).

(** [s.includes(sub)], as a proposition. *)
Definition includes (s sub : jsstring) : Prop :=
  exists pre post, s = pre ++ sub ++ post.

(** ** Values

    What [resp.json()] can produce.  [undefined] is not a JSON value: a
    JavaScript value that may be [undefined] is an [option json]. *)

Inductive json : Type :=
| JNull
| JBool (b : bool)
| JNum (f : float)
| JStr (s : jsstring)
| JArr (items : list json)
| JObj (fields : list (jsstring * json)).

Definition jsval := option json.

Definition undefined : jsval := None.

(** [ToBoolean]: [undefined], [null], [false], [+0], [-0], [NaN] and the
    empty string are falsy, everything else (every array and object too) is
    truthy. *)
Definition truthy (v : jsval) : bool :=
  match v with
  | None => false
  | Some JNull => false
  | Some (JBool b) => b
  | Some (JNum f) => negb (PrimFloat.eqb f 0%float) && PrimFloat.eqb f f
  | Some (JStr s) => match s with [] => false | _ :: _ => true end
  | Some (JArr _) => true
  | Some (JObj _) => true
  end.

(** [a || b]: the first operand when it is truthy, else the second. *)
Definition jsOr (a b : jsval) : jsval := if truthy a then a else b.

(** An object read by [JSON.parse] keeps, of two fields with one name, the
    later one. *)
Fixpoint ownField (name : jsstring) (fields : list (jsstring * json)) : jsval :=
  match fields with
  | [] => None
  | (k, v) :: rest =>
      match ownField name rest with
      | Some w => Some w
      | None => if streq name k then Some v else None
      end
  end.

(** [v.name] for a name that no prototype defines ([choices], [message]
    and [content] are such names): only an object can have it. *)
Definition member (name : jsstring) (v : json) : jsval :=
  match v with
  | JObj fields => ownField name fields
  | _ => undefined
  end.

(** [v[0]]: the first element of an array, the first code unit of a string,
    the field named ["0"] of an object. *)
Definition index0 (v : json) : jsval :=
  match v with
  | JArr items => hd_error items
  | JStr (c :: _) => Some (JStr [c])
  | JObj fields => ownField (lit "0") fields
  | _ => undefined
  end.

(** [v?.k]: [undefined] when [v] is [null] or [undefined]. *)
Definition optional (v : jsval) (get : json -> jsval) : jsval :=
  match v with
  | None => undefined
  | Some JNull => undefined
  | Some w => get w
  end.

End Js.

Import Js.

Notation "v ?. get" := (optional v get) (at level 39, left associativity).

(** ** Completions

    A computation either ends normally or throws.  Of a thrown [Error] the
    script reads only [message]. *)

Inductive Completion (A : Type) : Type :=
| Normal (a : A)
| Throw (message : jsstring).

Arguments Throw {A} message.

Definition cbind {A B} (c : Completion A) (k : A -> Completion B) : Completion B :=
  match c with
  | Normal a => k a
  | Throw m => Throw m
  end.

(** ** The page and the state of the script *)

(** An entry of the [messages] array: [{ role: ..., content: ... }]. *)
Record Message : Type := { role : jsstring; content : json }.

(** A [div] bubble of the chat window with its two [span]s (classes
    [msg-label] and [msg-text]), of which the script sets [innerText].  The
    text span holds the value that was assigned to it. *)
Record Element : Type := {
  node : nat;
  classList : list jsstring;
  labelText : jsstring;
  contentText : json
}.

(** The arguments of a [fetch]; [body] is the value handed to
    [JSON.stringify], whose text the host sends. *)
Record Request : Type := {
  url : jsstring;
  method : jsstring;
  headers : list (jsstring * jsstring);
  body : json
}.

(** What the host hands back for a request: [resp.status], and what
    [resp.text()] and [resp.json()] settle with.  The script reads only one
    of the two. *)
Record Response : Type := {
  status : N;
  text : Completion jsstring;
  json_ : Completion json
}.

(** An activation of [handleSend] suspended at its [await]: the local
    [typingEl] it will use again, and the request it waits for. *)
Record Call : Type := { typingEl : nat; awaited : Request }.

Inductive Log : Type :=
| LogInfo (args : list jsstring)
| LogError (message : jsstring).

(** The constants of the top of the script: which of the four
    [querySelector] lookups found an element ([false] is [null]), and
    [apiKey]. *)
Record Env : Type := {
  chatForm : bool;
  userInput : bool;
  sendBtn : bool;
  chatContainer : bool;
  apiKey : jsval
}.

(** The globals that [secrets.js] may define. *)
Record Window : Type := {
  OPENAI_API_KEY : jsval;
  API_KEY : jsval;
  OPENAI_KEY : jsval
}.

Record Page : Type := {
  hasForm : bool;
  hasInput : bool;
  hasButton : bool;
  hasWindow : bool
}.

Definition load (p : Page) (w : Window) : Env :=
  {| chatForm := hasForm p;
     userInput := hasInput p;
     sendBtn := hasButton p;
     chatContainer := hasWindow p;
     apiKey := jsOr (OPENAI_API_KEY w)
                 (jsOr (API_KEY w) (jsOr (OPENAI_KEY w) (Some (JStr (lit ""))))) |}.

Record State : Type := {
  messages : list Message;       (* let messages *)
  value : jsstring;              (* userInput.value *)
  focused : bool;                (* userInput has the focus *)
  disabled : bool;               (* sendBtn.disabled *)
  children : list Element;       (* chatContainer's children, in order *)
  atEnd : bool;                  (* scrollTop was last set to scrollHeight *)
  nextNode : nat;                   (* identity of the next node created *)
  timers : list nat;             (* setTimeout callbacks not yet run *)
  pendingCalls : list Call;      (* activations suspended at the await *)
  outbox : list Request;         (* every fetch issued so far *)
  console : list Log
}.

Definition with_messages f (s : State) : State :=
  {| messages := f (messages s); value := value s; focused := focused s;
     disabled := disabled s; children := children s; atEnd := atEnd s;
     nextNode := nextNode s; timers := timers s; pendingCalls := pendingCalls s;
     outbox := outbox s; console := console s |}.

Definition with_value v (s : State) : State :=
  {| messages := messages s; value := v; focused := focused s;
     disabled := disabled s; children := children s; atEnd := atEnd s;
     nextNode := nextNode s; timers := timers s; pendingCalls := pendingCalls s;
     outbox := outbox s; console := console s |}.

Definition with_focused b (s : State) : State :=
  {| messages := messages s; value := value s; focused := b;
     disabled := disabled s; children := children s; atEnd := atEnd s;
     nextNode := nextNode s; timers := timers s; pendingCalls := pendingCalls s;
     outbox := outbox s; console := console s |}.

Definition with_disabled b (s : State) : State :=
  {| messages := messages s; value := value s; focused := focused s;
     disabled := b; children := children s; atEnd := atEnd s;
     nextNode := nextNode s; timers := timers s; pendingCalls := pendingCalls s;
     outbox := outbox s; console := console s |}.

Definition with_children f (s : State) : State :=
  {| messages := messages s; value := value s; focused := focused s;
     disabled := disabled s; children := f (children s); atEnd := atEnd s;
     nextNode := nextNode s; timers := timers s; pendingCalls := pendingCalls s;
     outbox := outbox s; console := console s |}.

Definition with_atEnd b (s : State) : State :=
  {| messages := messages s; value := value s; focused := focused s;
     disabled := disabled s; children := children s; atEnd := b;
     nextNode := nextNode s; timers := timers s; pendingCalls := pendingCalls s;
     outbox := outbox s; console := console s |}.

Definition with_nextNode n (s : State) : State :=
  {| messages := messages s; value := value s; focused := focused s;
     disabled := disabled s; children := children s; atEnd := atEnd s;
     nextNode := n; timers := timers s; pendingCalls := pendingCalls s;
     outbox := outbox s; console := console s |}.

Definition with_timers f (s : State) : State :=
  {| messages := messages s; value := value s; focused := focused s;
     disabled := disabled s; children := children s; atEnd := atEnd s;
     nextNode := nextNode s; timers := f (timers s); pendingCalls := pendingCalls s;
     outbox := outbox s; console := console s |}.

Definition with_pendingCalls f (s : State) : State :=
  {| messages := messages s; value := value s; focused := focused s;
     disabled := disabled s; children := children s; atEnd := atEnd s;
     nextNode := nextNode s; timers := timers s; pendingCalls := f (pendingCalls s);
     outbox := outbox s; console := console s |}.

Definition with_outbox f (s : State) : State :=
  {| messages := messages s; value := value s; focused := focused s;
     disabled := disabled s; children := children s; atEnd := atEnd s;
     nextNode := nextNode s; timers := timers s; pendingCalls := pendingCalls s;
     outbox := f (outbox s); console := console s |}.

Definition with_console f (s : State) : State :=
  {| messages := messages s; value := value s; focused := focused s;
     disabled := disabled s; children := children s; atEnd := atEnd s;
     nextNode := nextNode s; timers := timers s; pendingCalls := pendingCalls s;
     outbox := outbox s; console := f (console s) |}.

Arguments with_messages f s /.
Arguments with_value v s /.
Arguments with_focused b s /.
Arguments with_disabled b s /.
Arguments with_children f s /.
Arguments with_atEnd b s /.
Arguments with_nextNode n s /.
Arguments with_timers f s /.
Arguments with_pendingCalls f s /.
Arguments with_outbox f s /.
Arguments with_console f s /.

(** ** The monad of the script: state, and exceptions that keep it *)

Definition Script (A : Type) : Type := State -> Completion A * State.

Definition ret {A} (a : A) : Script A := fun s => (Normal a, s).

Definition bind {A B} (c : Script A) (k : A -> Script B) : Script B :=
  fun s =>
    match c s with
    | (Normal a, s') => k a s'
    | (Throw m, s') => (Throw m, s')
    end.

Definition throw {A} (message : jsstring) : Script A :=
  fun s => (Throw message, s).

Definition gets {A} (f : State -> A) : Script A := fun s => (Normal (f s), s).

Definition modify (f : State -> State) : Script unit :=
  fun s => (Normal tt, f s).

Definition lift {A} (c : Completion A) : Script A := fun s => (c, s).

Notation "x <- c ;; k" := (bind c (fun x => k))
  (at level 61, c at next level, right associativity).
Notation "c ;; k" := (bind c (fun _ => k))
  (at level 61, right associativity).

(** [try { body } catch (err) { handler err } finally { final }] *)
Definition tryCatchFinally (body : Script unit) (handler : jsstring -> Script unit)
    (final : Script unit) : Script unit :=
  fun s =>
    let caught :=
      match body s with
      | (Normal tt, s') => (Normal tt, s')
      | (Throw m, s') => handler m s'
      end in
    match final (snd caught) with
    | (Normal tt, s'') => (fst caught, s'')
    | (Throw m, s'') => (Throw m, s'')
    end.

(** ** What the script does to the page *)

(** A property of [null] was read or set. *)
Definition TypeError : jsstring := lit "TypeError".

(** [document.createElement("div")]: a node of its own identity, not yet in
    the document. *)
Definition createElement : Script Element :=
  n <- gets nextNode ;;
  modify (with_nextNode (S n)) ;;
  ret {| node := n; classList := []; labelText := []; contentText := JStr [] |}.

(** [el.classList.add(t1, ..., tn)]: a token already there is not added
    again. *)
Definition classList_add (tokens : list jsstring) (el : Element) : Element :=
  {| node := node el;
     classList := fold_left
       (fun cl t => if existsb (streq t) cl then cl else cl ++ [t])
       tokens (classList el);
     labelText := labelText el;
     contentText := contentText el |}.

Definition classList_remove (token : jsstring) (el : Element) : Element :=
  {| node := node el;
     classList := filter (fun c => negb (streq c token)) (classList el);
     labelText := labelText el;
     contentText := contentText el |}.

Definition setTexts (l : jsstring) (t : json) (el : Element) : Element :=
  {| node := node el; classList := classList el;
     labelText := l; contentText := t |}.

(** A change of an element that is already in the document. *)
Definition updateNode (n : nat) (f : Element -> Element) : Script unit :=
  modify (with_children (map (fun el => if node el =? n then f el else el))).

(** [chatContainer.appendChild(el)] *)
Definition appendChild (env : Env) (el : Element) : Script unit :=
  if chatContainer env then modify (with_children (fun c => c ++ [el]))
  else throw TypeError.

(** [chatContainer.scrollTop = chatContainer.scrollHeight] *)
Definition scrollToEnd (env : Env) : Script unit :=
  if chatContainer env then modify (with_atEnd true) else throw TypeError.

(** [el.remove()] *)
Definition remove (n : nat) : Script unit :=
  modify (with_children (filter (fun el => negb (node el =? n)))).

(** [userInput.value = v] *)
Definition setValue (env : Env) (v : jsstring) : Script unit :=
  if userInput env then modify (with_value v) else throw TypeError.

(** [userInput.focus()] *)
Definition focus (env : Env) : Script unit :=
  if userInput env then modify (with_focused true) else throw TypeError.

(** [sendBtn.disabled = b] *)
Definition setDisabled (env : Env) (b : bool) : Script unit :=
  if sendBtn env then modify (with_disabled b) else throw TypeError.

(** [messages.push(m)] *)
Definition push (m : Message) : Script unit :=
  modify (with_messages (fun ms => ms ++ [m])).

(** [setTimeout(() => el.classList.remove('new'), 260)] *)
Definition setTimeout (n : nat) : Script unit :=
  modify (with_timers (fun ts => ts ++ [n])).

Definition log (entry : Log) : Script unit :=
  modify (with_console (fun c => c ++ [entry])).

(** [fetch(url, { method, headers, body })] leaves at once. *)
Definition fetch (r : Request) : Script unit :=
  modify (with_outbox (fun o => o ++ [r])).

(** The activation stops at [await] and waits for the host. *)
Definition await (c : Call) : Script unit :=
  modify (with_pendingCalls (fun cs => cs ++ [c])).

(** ** The script *)

Definition LOreal : jsstring := lit "L" ++ [8217%N] ++ lit "Or" ++ [233%N] ++ lit "al".

(** The one element [messages] starts with. *)
Definition seed : Message :=
  {| role := lit "system";
     content := JStr
       (lit "You are a helpful assistant specialized in " ++ LOreal
        ++ lit " products, skincare and beauty routines, and related recommendations. Politely refuse to answer questions that are unrelated to "
        ++ LOreal
        ++ lit " products, beauty, skincare, cosmetics, haircare, or routine recommendations. When refusing, respond briefly and offer to help with "
        ++ LOreal
        ++ lit "-specific or beauty-related questions instead.") |}.

(** [function addMessage(role, text)] *)
Definition addMessage (env : Env) (role : jsstring) (text : json) : Script unit :=
  msgEl <- createElement ;;
  let msgEl := classList_add [lit "chat-message"; lit "msg"] msgEl in
  let msgEl :=
    if streq role (lit "user") then classList_add [lit "user"] msgEl
    else classList_add [lit "ai"] msgEl in
  let msgEl :=
    setTexts (if streq role (lit "user") then lit "User: " else lit "Assistant: ")
      text msgEl in
  if negb (chatContainer env) then ret tt
  else
    appendChild env msgEl ;;
    scrollToEnd env ;;
    updateNode (node msgEl) (classList_add [lit "new"]) ;;
    setTimeout (node msgEl).

Definition WORKER_URL : jsstring := lit "https://loreal-worker.mtrigui.workers.dev/".

Definition messageJson (m : Message) : json :=
  JObj [(lit "role", JStr (role m)); (lit "content", content m)].

(** [async function getChatCompletion(convMessages)], up to the [fetch].
    [convMessages] is the [messages] array itself, but [JSON.stringify]
    reads it before anything else can run, so the request carries the
    transcript as it is at the call. *)
Definition getChatCompletion (env : Env) (convMessages : list Message) : Script Request :=
  log (LogInfo [lit "POSTing chat completion request to worker:"; WORKER_URL]) ;;
  let body := JObj [(lit "model", JStr (lit "gpt-4o"));
                    (lit "messages", JArr (map messageJson convMessages))] in
  let r := {| url := WORKER_URL;
              method := lit "POST";
              headers := [(lit "Content-Type", lit "application/json")];
              body := body |} in
  fetch r ;;
  ret r.

(** [resp.ok] *)
Definition ok (resp : Response) : bool :=
  ((200 <=? status resp) && (status resp <=? 299))%N.

(** [data?.choices?.[0]?.message?.content] *)
Definition assistantContent (data : json) : jsval :=
  Some data ?. member (lit "choices") ?. index0
            ?. member (lit "message") ?. member (lit "content").

(** [getChatCompletion] from the settlement of the [fetch] on: what the
    [await getChatCompletion(messages)] of [handleSend] yields or throws. *)
Definition getChatCompletion_resume (fetched : Completion Response) : Completion json :=
  cbind fetched (fun resp =>
  if negb (ok resp) then
    cbind (text resp) (fun errText =>
    Throw (lit "API request failed: " ++ ofNumber (status resp) ++ lit " " ++ errText))
  else
    cbind (json_ resp) (fun data =>
    match assistantContent data with
    | Some reply =>
        if negb (truthy (Some reply))
        then Throw (lit "No assistant message found in API response.")
        else Normal reply
    | None => Throw (lit "No assistant message found in API response.")
    end)).

Definition typingIndicator (el : Element) : Element :=
  setTexts (lit "Assistant: ") (JStr (lit "..."))
    (classList_add [lit "chat-message"; lit "msg"; lit "ai"; lit "typing"] el).

(** [async function handleSend(event)], up to its [await].
    [event.preventDefault()] changes nothing of the state kept here. *)
Definition handleSend (env : Env) (event : bool) : Script unit :=
  text <- (if userInput env then v <- gets value ;; ret (Some (trim v))
           else ret None) ;;
  match text with
  | None => ret tt
  | Some [] => ret tt
  | Some text =>
      addMessage env (lit "user") (JStr text) ;;
      push {| role := lit "user"; content := JStr text |} ;;
      setValue env (lit "") ;;
      setDisabled env true ;;
      typingEl <- createElement ;;
      let typingEl := typingIndicator typingEl in
      appendChild env typingEl ;;
      scrollToEnd env ;;
      convMessages <- gets messages ;;
      r <- getChatCompletion env convMessages ;;
      await {| typingEl := node typingEl; awaited := r |}
  end.

(** The rest of [handleSend], run when the request of [c] has settled with
    [fetched]. *)
Definition handleSend_resume (env : Env) (c : Call) (fetched : Completion Response)
    : Script unit :=
  tryCatchFinally
    (reply <- lift (getChatCompletion_resume fetched) ;;
     remove (typingEl c) ;;
     addMessage env (lit "assistant") reply ;;
     push {| role := lit "assistant"; content := reply |})
    (fun message =>
       remove (typingEl c) ;;
       addMessage env (lit "assistant") (JStr (lit "Error: " ++ message)) ;;
       log (LogError message))
    (setDisabled env false ;;
     focus env).

(** ** The event loop

    What can happen on the page, one task at a time.  The listeners are the
    ones the bottom of the script registers: [handleSend] on the form's
    [submit] (on the button's [click] when there is no form), and the
    [keydown] listener of the input, which calls [handleSend()] on Enter
    without Shift.  The host delivers no click on, and no submission
    through, a disabled button; a key goes to the input that has the
    focus. *)

Inductive Event : Type :=
| Edit (v : jsstring)                 (* the user edits the input field *)
| Blur                                (* the focus leaves the input field *)
| Submit                              (* a submit of the form, or a click *)
| Keydown (key : jsstring) (shiftKey : bool)
| Settle (typing : nat) (fetched : Completion Response)
| Timer (n : nat).                    (* a timer of addMessage runs out *)

Definition run {A} (c : Script A) (s : State) : State := snd (c s).

Fixpoint takeCall (n : nat) (cs : list Call) : option (Call * list Call) :=
  match cs with
  | [] => None
  | c :: rest =>
      if typingEl c =? n then Some (c, rest)
      else match takeCall n rest with
           | Some (c', rest') => Some (c', c :: rest')
           | None => None
           end
  end.

Fixpoint takeTimer (n : nat) (ts : list nat) : option (list nat) :=
  match ts with
  | [] => None
  | t :: rest =>
      if t =? n then Some rest
      else match takeTimer n rest with
           | Some rest' => Some (t :: rest')
           | None => None
           end
  end.

(** One task; [None] when the host cannot deliver the event in this state. *)
Definition step (env : Env) (ev : Event) (s : State) : option State :=
  match ev with
  | Edit v =>
      if userInput env then Some (with_focused true (with_value v s)) else None
  | Blur => Some (with_focused false s)
  | Submit =>
      if (chatForm env || sendBtn env) && negb (sendBtn env && disabled s)
      then Some (run (handleSend env true) s)
      else None
  | Keydown key shiftKey =>
      if userInput env && focused s then
        if streq key (lit "Enter") && negb shiftKey
        then Some (run (handleSend env false) s)
        else Some s
      else None
  | Settle n fetched =>
      match takeCall n (pendingCalls s) with
      | Some (c, rest) =>
          Some (run (handleSend_resume env c fetched)
                  (with_pendingCalls (fun _ => rest) s))
      | None => None
      end
  | Timer n =>
      match takeTimer n (timers s) with
      | Some rest =>
          Some (run (updateNode n (classList_remove (lit "new")))
                  (with_timers (fun _ => rest) s))
      | None => None
      end
  end.

Fixpoint steps (env : Env) (evs : list Event) (s : State) : option State :=
  match evs with
  | [] => Some s
  | ev :: rest =>
      match step env ev s with
      | Some s' => steps env rest s'
      | None => None
      end
  end.

(** The state when the script has been loaded into a page whose chat window
    holds [kids]: the input is empty and the button enabled, as the page
    has them before the first send. *)
Definition initial (kids : list Element) : State :=
  {| messages := [seed];
     value := lit "";
     focused := false;
     disabled := false;
     children := kids;
     atEnd := false;
     nextNode := S (fold_right Nat.max 0 (map node kids));
     timers := [];
     pendingCalls := [];
     outbox := [];
     console := [] |}.

(** A page that has the three elements [handleSend] works on. *)
Definition complete (env : Env) : Prop :=
  userInput env = true /\ sendBtn env = true /\ chatContainer env = true.

(** The completion call of a cycle succeeded with [reply], or failed with
    [message]. *)
Definition succeeds (fetched : Completion Response) (reply : json) : Prop :=
  getChatCompletion_resume fetched = Normal reply.

Definition fails (fetched : Completion Response) (message : jsstring) : Prop :=
  getChatCompletion_resume fetched = Throw message.

(** ** Vocabulary of the properties *)

Definition userTurn (text : jsstring) : Message :=
  {| role := lit "user"; content := JStr text |}.

Definition assistantTurn (reply : json) : Message :=
  {| role := lit "assistant"; content := reply |}.

(** The request of a send cycle whose transcript is [ms]. *)
Definition completionRequest (ms : list Message) : Request :=
  {| url := WORKER_URL;
     method := lit "POST";
     headers := [(lit "Content-Type", lit "application/json")];
     body := JObj [(lit "model", JStr (lit "gpt-4o"));
                   (lit "messages", JArr (map messageJson ms))] |}.

(** The bubble [addMessage] builds for the assistant. *)
Definition assistantBubble (n : nat) (text : json) : Element :=
  {| node := n;
     classList := [lit "chat-message"; lit "msg"; lit "ai"; lit "new"];
     labelText := lit "Assistant: ";
     contentText := text |}.

(** The indicator of node [n] is among the elements [l]. *)
Definition shownIn (n : nat) (l : list Element) : Prop :=
  exists el, In el l /\ node el = n /\ In (lit "typing") (classList el).

(** From [s] to [s'] no node identity is reused, and the indicators that
    satisfy [P] stay where they are. *)
Definition keeps (P : nat -> Prop) (s s' : State) : Prop :=
  nextNode s <= nextNode s' /\
  forall n, P n -> shownIn n (children s) -> shownIn n (children s').

(** The suspended calls have indicators of distinct, already used nodes,
    and each indicator is in the chat window. *)
Definition wellFormed (s : State) : Prop :=
  NoDup (map typingEl (pendingCalls s))
  /\ forall c, In c (pendingCalls s) ->
       typingEl c < nextNode s /\ shownIn (typingEl c) (children s).

(** A turn of the conversation: what the user sent, trimmed and not empty,
    or a reply that [getChatCompletion] returned. *)
Definition turn (m : Message) : Prop :=
  (exists text, text <> [] /\ m = userTurn text)
  \/ (exists reply, truthy (Some reply) = true /\ m = assistantTurn reply).

(** The three ways a completion call fails: the [fetch] is rejected; the
    status is not 2xx, whether the body can then be read as text or not; or
    the status is 2xx and the response yields no reply, because its body
    does not parse or because what it parses to holds none. *)
Inductive callFails : Completion Response -> Prop :=
| transportError (message : jsstring) :
    callFails (Throw message)
| badStatus (resp : Response) :
    ok resp = false -> callFails (Normal resp)
| noReply (resp : Response) :
    ok resp = true ->
    (forall data, json_ resp = Normal data ->
       truthy (assistantContent data) = false) ->
    callFails (Normal resp).

(** A page with all its elements, and what [secrets.js] may give. *)
Definition fullPage : Page :=
  {| hasForm := true; hasInput := true; hasButton := true; hasWindow := true |}.

Definition noSecrets : Window :=
  {| OPENAI_API_KEY := undefined; API_KEY := undefined; OPENAI_KEY := undefined |}.

Definition withSecret (key : jsstring) : Window :=
  {| OPENAI_API_KEY := Some (JStr key); API_KEY := undefined; OPENAI_KEY := undefined |}.

Definition demo : Env := load fullPage noSecrets.

(** The input field holds [v] and nothing has been sent yet. *)
Definition typed (v : jsstring) : State := with_value v (initial []).

(** A 200 response whose body is [{ choices: [{ message: { content } }] }]. *)
Definition replyWith (content : json) : Response :=
  {| status := 200;
     text := Throw (lit "body stream already read");
     json_ := Normal
       (JObj [(lit "choices",
               JArr [JObj [(lit "message", JObj [(lit "content", content)])]])]) |}.

(** A 500 response whose body is the text [internal error]. *)
Definition internalError : Response :=
  {| status := 500;
     text := Normal (lit "internal error");
     json_ := Throw (lit "Unexpected token 'i'") |}.

(** The script with another value of [apiKey]. *)
Definition withKey (k : jsval) (env : Env) : Env :=
  {| chatForm := chatForm env; userInput := userInput env;
     sendBtn := sendBtn env; chatContainer := chatContainer env;
     apiKey := k |}.

(** The task is no Enter without Shift in the input field. *)
Definition noEnter (ev : Event) : bool :=
  match ev with
  | Keydown key shiftKey => negb (streq key (lit "Enter") && negb shiftKey)
  | _ => true
  end.

(** The bubble [addMessage] builds for the user. *)
Definition userBubble (n : nat) (text : json) : Element :=
  {| node := n;
     classList := [lit "chat-message"; lit "msg"; lit "user"; lit "new"];
     labelText := lit "User: ";
     contentText := text |}.

(** The indicator [handleSend] builds. *)
Definition typingBubble (n : nat) : Element :=
  {| node := n;
     classList := [lit "chat-message"; lit "msg"; lit "ai"; lit "typing"];
     labelText := lit "Assistant: ";
     contentText := JStr (lit "...") |}.

(** [el'] is the element [el] with, at most, other classes. *)
Definition sameBubble (el el' : Element) : Prop :=
  node el' = node el /\ labelText el' = labelText el
  /\ contentText el' = contentText el.

(** No node of the chat window has an identity that is still to be given
    out, and a node that a suspended call will remove is an indicator. *)
Definition tidy (s : State) : Prop :=
  (forall el, In el (children s) -> node el < nextNode s)
  /\ (forall c, In c (pendingCalls s) -> typingEl c < nextNode s)
  /\ (forall el c, In el (children s) -> In c (pendingCalls s) ->
        node el = typingEl c -> In (lit "typing") (classList el)).

(** Every bubble still marked [new] has its timer running. *)
Definition newTimed (s : State) : Prop :=
  forall el, In el (children s) -> In (lit "new") (classList el) ->
    In (node el) (timers s).

(** Every request sent carried a transcript that ends with a user turn and
    that the present transcript starts with. *)
Definition sentFrom (s : State) : Prop :=
  forall r, In r (outbox s) ->
    exists ms text rest,
      r = completionRequest (ms ++ [userTurn text])
      /\ text <> []
      /\ messages s = (ms ++ [userTurn text]) ++ rest.

(** A user turn holds a text that [trim] leaves as it is. *)
Definition trimmedTurn (m : Message) : Prop :=
  role m = lit "user" ->
  exists text, content m = JStr text /\ text <> [] /\ trim text = text.

(** At most one call is suspended, and the button is disabled while it
    is. *)
Definition locked (env : Env) (s : State) : Prop :=
  pendingCalls s = []
  \/ (exists c, pendingCalls s = [c]) /\ disabled s = true /\ sendBtn env = true.

(** Every assistant turn of [ms] comes right after a user turn. *)
Definition answered (ms : list Message) : Prop :=
  forall pre m post,
    ms = pre ++ m :: post -> role m = lit "assistant" ->
    exists pre' text, pre = pre' ++ [userTurn text].

(** The last message is a user turn. *)
Definition asked (ms : list Message) : Prop :=
  exists pre text, ms = pre ++ [userTurn text].

(** ** The first revision of the script

    The starter that the chat client replaced: it swaps the logo image for
    a typographic fallback when the image fails to load, greets in the chat
    window, and answers every submit with a fixed notice. *)

Module Starter.

(** The page: the logo image and its fallback, when the page has them
    ([None] is [null]), the content of the chat window, and whether the
    [DOMContentLoaded] callback has registered the two listeners of the
    image. *)
Record Page : Type := {
  logoImg : option jsstring;        (* logoImg.style.opacity *)
  fallback : option Element;        (* the .logo-fallback element *)
  chatWindow : jsstring;            (* the text the chat window shows *)
  listening : bool                  (* error and load have their listeners *)
}.

(** What the host can deliver: the document is parsed, or the image fails
    or loads.  The document fires [DOMContentLoaded] once; if it did twice
    the listeners, registered twice, would run to the same effect. *)
Inductive PageEvent : Type := contentLoaded | error | load.

(** The callback of [DOMContentLoaded]: [if (!logoImg) return;] and the
    two [addEventListener]. *)
Definition onContentLoaded (p : Page) : Page :=
  match logoImg p with
  | None => p
  | Some _ =>
      {| logoImg := logoImg p; fallback := fallback p;
         chatWindow := chatWindow p; listening := true |}
  end.

(** The listener of [error]. *)
Definition onError (p : Page) : Page :=
  {| logoImg := option_map (fun _ => lit "0") (logoImg p);
     fallback := option_map (classList_add [lit "show"]) (fallback p);
     chatWindow := chatWindow p;
     listening := listening p |}.

(** The listener of [load]. *)
Definition onLoad (p : Page) : Page :=
  {| logoImg := option_map (fun _ => lit "1") (logoImg p);
     fallback := option_map (classList_remove (lit "show")) (fallback p);
     chatWindow := chatWindow p;
     listening := listening p |}.

(** An image event finds a listener only once the callback of
    [DOMContentLoaded] has run on a page that has the image; before that,
    and on a page without the image, it changes nothing. *)
Definition dispatch (ev : PageEvent) (p : Page) : Page :=
  match ev with
  | contentLoaded => onContentLoaded p
  | error => if listening p then onError p else p
  | load => if listening p then onLoad p else p
  end.

Definition dispatchAll (evs : list PageEvent) (p : Page) : Page :=
  fold_left (fun q ev => dispatch ev q) evs p.

(** [chatWindow.textContent = ...] at load: a waving hand (two code units)
    and the greeting. *)
Definition greeting : jsstring :=
  [55357%N; 56395%N] ++ lit " Hello! How can I help you today?".

Definition greet (p : Page) : Page :=
  {| logoImg := logoImg p; fallback := fallback p; chatWindow := greeting;
     listening := listening p |}.

(** The [submit] listener of the form. *)
Definition onSubmit (p : Page) : Page :=
  {| logoImg := logoImg p; fallback := fallback p;
     chatWindow := lit "Connect to the OpenAI API for a response!";
     listening := listening p |}.

End Starter.

Unset Implicit Arguments.

(** * Properties *)

(** ** Strings *)

Lemma trimStart_nil_iff (s : jsstring) :
  trimStart s = [] <-> forallb isWhiteSpace s = true.
Proof.
  induction s as [|c s IH]; cbn; [tauto|].
  destruct (isWhiteSpace c); cbn; [exact IH|].
  split; discriminate.
Qed.

Lemma trimStart_suffix (s : jsstring) :
  exists ws, s = ws ++ trimStart s /\ forallb isWhiteSpace ws = true.
Proof.
  induction s as [|c s (ws & Hs & Hws)]; cbn.
  - exists []. split; reflexivity.
  - destruct (isWhiteSpace c) eqn:Hc.
    + exists (c :: ws). cbn. rewrite Hc, Hws. split; [congruence | reflexivity].
    + exists []. split; reflexivity.
Qed.

Lemma forallb_rev {A} (p : A -> bool) (l : list A) :
  forallb p (rev l) = forallb p l.
Proof.
  induction l as [|a l IH]; cbn; [reflexivity|].
  rewrite forallb_app, IH. cbn. rewrite andb_true_r. apply andb_comm.
Qed.

(** The trimmed text is empty exactly for an input that is empty or made of
    white space only. *)
Lemma trim_nil_iff (s : jsstring) :
  trim s = [] <-> forallb isWhiteSpace s = true.
Proof.
  unfold trim, trimEnd.
  destruct (trimStart_suffix s) as (ws & Hs & Hws).
  split; intros H.
  - assert (Hr : trimStart (rev (trimStart s)) = []).
    { destruct (trimStart (rev (trimStart s))); [reflexivity|].
      apply (f_equal (@List.length N)) in H. rewrite length_rev in H. discriminate. }
    apply trimStart_nil_iff in Hr. rewrite forallb_rev in Hr.
    rewrite Hs, forallb_app, Hws, Hr. reflexivity.
  - apply trimStart_nil_iff in H. rewrite H. reflexivity.
Qed.

Lemma includes_mid (a b c : jsstring) : includes (a ++ b ++ c) b.
Proof. exists a, c. reflexivity. Qed.

Lemma includes_app_r (a s sub : jsstring) : includes s sub -> includes (a ++ s) sub.
Proof.
  intros (pre & post & ->). exists (a ++ pre), post. now rewrite app_assoc.
Qed.

Lemma includes_suffix (a b : jsstring) : includes (a ++ b) b.
Proof. exists a, []. now rewrite app_nil_r. Qed.

(** ** One activation of [handleSend] *)

Ltac exec :=
  unfold run, handleSend, handleSend_resume, addMessage, getChatCompletion,
    tryCatchFinally, createElement, appendChild, scrollToEnd, setValue,
    setDisabled, focus, push, remove, updateNode, setTimeout, log, fetch,
    await, bind, ret, gets, modify, throw, lift in *.

(** Case analysis on which elements the page has, before anything is run. *)
Ltac page env :=
  let cf := fresh "cf" in let ui := fresh "ui" in let sb := fresh "sb" in
  let cc := fresh "cc" in let ak := fresh "ak" in
  destruct env as [cf ui sb cc ak];
  cbn [chatForm userInput sendBtn chatContainer apiKey] in *;
  unfold complete in *;
  cbn [chatForm userInput sendBtn chatContainer apiKey] in *;
  repeat match goal with H : _ /\ _ |- _ => destruct H end;
  subst;
  try destruct ui; try destruct sb; try destruct cc.

Lemma handleSend_noop env ev s :
  trim (value s) = [] -> handleSend env ev s = (Normal tt, s).
Proof.
  intros H. exec. destruct (userInput env); [rewrite H|]; reflexivity.
Qed.

Lemma handleSend_no_input env ev s :
  userInput env = false -> handleSend env ev s = (Normal tt, s).
Proof. intros H. exec. rewrite H. reflexivity. Qed.

Lemma handleSend_messages env ev s text :
  userInput env = true -> trim (value s) = text -> text <> [] ->
  messages (run (handleSend env ev) s) = messages s ++ [userTurn text].
Proof.
  intros Hu Ht Hne. destruct text as [|c t]; [contradiction|].
  page env; exec; cbn; rewrite Ht; reflexivity.
Qed.

(** What a send that reaches its [await] leaves behind. *)
Lemma handleSend_started env ev s text :
  complete env -> trim (value s) = text -> text <> [] ->
  let s' := run (handleSend env ev) s in
  fst (handleSend env ev s) = Normal tt
  /\ messages s' = messages s ++ [userTurn text]
  /\ value s' = lit ""
  /\ disabled s' = true
  /\ nextNode s' = S (S (nextNode s))
  /\ pendingCalls s' = pendingCalls s
       ++ [{| typingEl := S (nextNode s);
              awaited := completionRequest (messages s ++ [userTurn text]) |}]
  /\ outbox s' = outbox s ++ [completionRequest (messages s ++ [userTurn text])]
  /\ exists before el,
       children s' = before ++ [el] /\ node el = S (nextNode s)
       /\ In (lit "typing") (classList el)
       /\ contentText el = JStr (lit "...").
Proof.
  intros Henv Ht Hne. destruct text as [|c t]; [contradiction|].
  page env. cbv zeta. exec. cbn. rewrite Ht. cbn.
  repeat (split; [reflexivity|]).
  eexists _, _. split; [reflexivity|]. cbn. tauto.
Qed.

(** A reply that [getChatCompletion] returns is truthy, and is what
    [choices[0].message.content] of the parsed body holds. *)
Lemma reply_read fetched reply :
  getChatCompletion_resume fetched = Normal reply ->
  exists resp data,
    fetched = Normal resp /\ ok resp = true /\ json_ resp = Normal data
    /\ assistantContent data = Some reply /\ truthy (Some reply) = true.
Proof.
  unfold getChatCompletion_resume, cbind.
  destruct fetched as [resp|m]; [|discriminate].
  destruct (ok resp) eqn:Hok; cbv [negb].
  - destruct (json_ resp) as [data|m] eqn:Hj; [|discriminate].
    destruct (assistantContent data) as [v|] eqn:Hc; [|discriminate].
    destruct (truthy (Some v)) eqn:Ht; [|discriminate].
    intros [= <-]. exists resp, data. tauto.
  - destruct (text resp); discriminate.
Qed.

Lemma resume_success_messages env c fetched reply s :
  getChatCompletion_resume fetched = Normal reply ->
  messages (run (handleSend_resume env c fetched) s)
  = messages s ++ [assistantTurn reply].
Proof.
  intros H. page env; exec; rewrite H; reflexivity.
Qed.

Lemma resume_failure_messages env c fetched message s :
  getChatCompletion_resume fetched = Throw message ->
  messages (run (handleSend_resume env c fetched) s) = messages s.
Proof.
  intros H. page env; exec; rewrite H; reflexivity.
Qed.

Lemma resume_outbox env c fetched s :
  outbox (run (handleSend_resume env c fetched) s) = outbox s.
Proof.
  page env; exec; destruct (getChatCompletion_resume fetched); reflexivity.
Qed.

Lemma resume_failure_bubble env c fetched message s :
  chatContainer env = true ->
  getChatCompletion_resume fetched = Throw message ->
  exists before,
    children (run (handleSend_resume env c fetched) s)
    = before ++ [assistantBubble (nextNode s) (JStr (lit "Error: " ++ message))].
Proof.
  intros Hc H. page env; exec; rewrite H; cbn;
    rewrite map_app; cbn; rewrite Nat.eqb_refl; eexists; reflexivity.
Qed.

Lemma resume_success_bubble env c fetched reply s :
  chatContainer env = true ->
  getChatCompletion_resume fetched = Normal reply ->
  exists before,
    children (run (handleSend_resume env c fetched) s)
    = before ++ [assistantBubble (nextNode s) reply].
Proof.
  intros Hc H. page env; exec; rewrite H; cbn;
    rewrite map_app; cbn; rewrite Nat.eqb_refl; eexists; reflexivity.
Qed.

(** [finally]: whatever the call came to, the button is enabled again, the
    input has the focus, and no child of the chat window is the indicator
    of the call. *)
Lemma resume_cleanup env c fetched s :
  complete env ->
  let s' := run (handleSend_resume env c fetched) s in
  fst (handleSend_resume env c fetched s) = Normal tt
  /\ disabled s' = false
  /\ focused s' = true
  /\ (typingEl c <> nextNode s ->
      forall el, In el (children s') -> node el <> typingEl c).
Proof.
  intros Henv. page env. cbv zeta. exec.
  destruct (getChatCompletion_resume fetched); cbn.
  all: repeat (split; [reflexivity|]).
  all: intros Hfresh el Hin Hn; apply in_map_iff in Hin;
    destruct Hin as (el0 & Hel & Hin);
    assert (Hn0 : node el0 = node el)
      by (destruct (node el0 =? nextNode s); subst el; reflexivity);
    apply in_app_iff in Hin; destruct Hin as [Hin | [<- | []]];
    [ apply filter_In in Hin; destruct Hin as [_ Hf];
      apply negb_true_iff, Nat.eqb_neq in Hf; congruence
    | cbn in Hn0; congruence ].
Qed.

(** ** The event loop *)

Lemma shownIn_app_l n l l' : shownIn n l -> shownIn n (l ++ l').
Proof. intros (el & Hin & H). exists el. rewrite in_app_iff. tauto. Qed.

Lemma shownIn_app_r n l l' : shownIn n l' -> shownIn n (l ++ l').
Proof. intros (el & Hin & H). exists el. rewrite in_app_iff. tauto. Qed.

Lemma shownIn_map n f l :
  (forall el, node (f el) = node el /\
     (In (lit "typing") (classList el) -> In (lit "typing") (classList (f el)))) ->
  shownIn n l -> shownIn n (map f l).
Proof.
  intros Hf (el & Hin & Hn & Hc). exists (f el).
  destruct (Hf el) as [H1 H2]. split; [now apply in_map|].
  split; [congruence | auto].
Qed.

Lemma shownIn_filter n m l :
  n <> m -> shownIn n l -> shownIn n (filter (fun el => negb (node el =? m)) l).
Proof.
  intros Hnm (el & Hin & Hn & Hc). exists el. split; [|tauto].
  apply filter_In. split; [assumption|].
  apply negb_true_iff, Nat.eqb_neq. congruence.
Qed.

Lemma fold_add_keeps tokens : forall cl t, In t cl ->
  In t (fold_left (fun cl t => if existsb (streq t) cl then cl else cl ++ [t])
          tokens cl).
Proof.
  induction tokens as [|a tokens IH]; intros cl t H; cbn; [assumption|].
  apply IH. destruct (existsb (streq a) cl); [assumption|].
  rewrite in_app_iff. tauto.
Qed.

Lemma add_class_ok k tokens el :
  node (if node el =? k then classList_add tokens el else el) = node el /\
  (In (lit "typing") (classList el) ->
   In (lit "typing")
     (classList (if node el =? k then classList_add tokens el else el))).
Proof.
  destruct (node el =? k); split; auto. apply fold_add_keeps.
Qed.

Lemma remove_new_ok k el :
  node (if node el =? k then classList_remove (lit "new") el else el) = node el /\
  (In (lit "typing") (classList el) ->
   In (lit "typing")
     (classList (if node el =? k then classList_remove (lit "new") el else el))).
Proof.
  destruct (node el =? k); split; auto. intros H. cbn.
  apply filter_In. split; [assumption | reflexivity].
Qed.

Lemma keeps_refl P s : keeps P s s.
Proof. split; [lia | auto]. Qed.

Create HintDb dom.

#[local] Hint Resolve shownIn_app_l shownIn_app_r shownIn_map shownIn_filter
  add_class_ok remove_new_ok keeps_refl : dom.

(** A send either leaves the suspended calls alone, or suspends one more
    whose indicator, a node of its own, is in the chat window. *)
Lemma handleSend_keeps env ev s :
  keeps (fun _ => True) s (run (handleSend env ev) s) /\
  (pendingCalls (run (handleSend env ev) s) = pendingCalls s \/
   exists r,
     pendingCalls (run (handleSend env ev) s)
     = pendingCalls s ++ [{| typingEl := S (nextNode s); awaited := r |}]
     /\ nextNode (run (handleSend env ev) s) = S (S (nextNode s))
     /\ shownIn (S (nextNode s)) (children (run (handleSend env ev) s))).
Proof.
  destruct (userInput env) eqn:Hu.
  2:{ unfold run. rewrite handleSend_no_input by assumption. cbn. auto with dom. }
  destruct (trim (value s)) as [|c t] eqn:Ht.
  { unfold run. rewrite handleSend_noop by assumption. cbn. auto with dom. }
  unfold keeps. page env; exec; cbn; rewrite Ht; cbn.
  - split; [split; [lia | intros n _ H] | right].
    + apply shownIn_app_l, shownIn_map; auto with dom.
    + eexists. split; [reflexivity|]. split; [reflexivity|].
      apply shownIn_app_r. eexists. split; [left; reflexivity|].
      split; [reflexivity | cbn; tauto].
  - split; [split; [lia | intros n _ H; exact H] | left; reflexivity].
  - split; [split; [lia | intros n _ H] | left; reflexivity].
    apply shownIn_map; auto with dom.
  - split; [split; [lia | intros n _ H; exact H] | left; reflexivity].
Qed.

Lemma resume_keeps env c fetched s :
  keeps (fun n => n <> typingEl c) s (run (handleSend_resume env c fetched) s)
  /\ pendingCalls (run (handleSend_resume env c fetched) s) = pendingCalls s.
Proof.
  unfold keeps. page env; exec;
    destruct (getChatCompletion_resume fetched); cbn.
  all: split; [split; [lia | intros n Hn H] | reflexivity].
  all: auto with dom.
  all: apply shownIn_map; auto with dom.
Qed.

Lemma takeCall_split n : forall cs c rest,
  takeCall n cs = Some (c, rest) ->
  exists l1 l2, cs = l1 ++ c :: l2 /\ rest = l1 ++ l2 /\ typingEl c = n.
Proof.
  induction cs as [|c0 cs IH]; intros c rest; cbn; [discriminate|].
  destruct (typingEl c0 =? n) eqn:Hn.
  - intros [= <- <-]. exists [], cs. apply Nat.eqb_eq in Hn. auto.
  - destruct (takeCall n cs) as [[c' rest']|]; [|discriminate].
    intros [= <- <-]. destruct (IH _ _ eq_refl) as (l1 & l2 & -> & -> & H).
    exists (c0 :: l1), l2. auto.
Qed.

Lemma takeCall_found n cs c :
  In c cs -> typingEl c = n -> exists c' rest, takeCall n cs = Some (c', rest).
Proof.
  induction cs as [|c0 cs IH]; intros Hin Hn; [contradiction|]. cbn.
  destruct (typingEl c0 =? n) eqn:H0; [eauto|].
  destruct Hin as [-> | Hin].
  - apply Nat.eqb_neq in H0. contradiction.
  - destruct (IH Hin Hn) as (c' & rest & ->). eauto.
Qed.

Lemma initial_wellFormed kids : wellFormed (initial kids).
Proof. split; [constructor | intros c []]. Qed.

Lemma step_wellFormed env ev s s' :
  step env ev s = Some s' -> wellFormed s -> wellFormed s'.
Proof.
  assert (Hsend : forall e, wellFormed s -> wellFormed (run (handleSend env e) s)).
  { intros e [Hnd Hall].
    destruct (handleSend_keeps env e s) as [[Hle Hk] [Hp | (r & Hp & Hfresh & Hshown)]].
    - split; rewrite Hp; [assumption|]. intros c Hin.
      destruct (Hall c Hin). split; [lia | auto].
    - split; rewrite Hp.
      + rewrite map_app. cbn. apply NoDup_app; [assumption | repeat constructor; intros [] |].
        intros n Hin [<- | []]. apply in_map_iff in Hin.
        destruct Hin as (c & Hc & Hin). destruct (Hall c Hin). lia.
      + intros c Hin. apply in_app_iff in Hin. destruct Hin as [Hin | [<- | []]].
        * destruct (Hall c Hin). split; [lia | auto].
        * cbn. split; [lia | assumption]. }
  destruct ev as [v | | | key shiftKey | n fetched | n]; cbn [step].
  - destruct (userInput env); [|discriminate]. intros [= <-]. auto.
  - intros [= <-]. auto.
  - destruct ((chatForm env || sendBtn env) && negb (sendBtn env && disabled s));
      [|discriminate]. intros [= <-]. auto.
  - destruct (userInput env && focused s); [|discriminate].
    destruct (streq key (lit "Enter") && negb shiftKey); intros [= <-]; auto.
  - destruct (takeCall n (pendingCalls s)) as [[c rest]|] eqn:Htake; [|discriminate].
    intros [= <-] [Hnd Hall].
    destruct (takeCall_split _ _ _ _ Htake) as (l1 & l2 & Hcs & -> & Hn).
    rewrite Hcs in Hnd, Hall. rewrite map_app in Hnd. cbn in Hnd.
    pose proof (NoDup_remove_1 _ _ _ Hnd) as Hnd1.
    pose proof (NoDup_remove_2 _ _ _ Hnd) as Hnd2.
    rewrite <- map_app in Hnd1, Hnd2.
    destruct (resume_keeps env c fetched
                (with_pendingCalls (fun _ => l1 ++ l2) s)) as [[Hle Hk] Hp].
    cbn in *. split; rewrite Hp; [assumption|].
    intros c' Hin.
    assert (Hin' : In c' (l1 ++ c :: l2))
      by (apply in_app_iff; apply in_app_iff in Hin; cbn; tauto).
    destruct (Hall c' Hin'). split; [lia|]. apply Hk; [|assumption].
    intros Heq. apply Hnd2. rewrite <- Heq. now apply in_map.
  - destruct (takeTimer n (timers s)); [|discriminate].
    intros [= <-] [Hnd Hall]. split; [assumption|]. cbn. intros c Hin.
    destruct (Hall c Hin). split; [assumption|]. apply shownIn_map; auto with dom.
Qed.

Lemma steps_wellFormed env evs : forall s s',
  steps env evs s = Some s' -> wellFormed s -> wellFormed s'.
Proof.
  induction evs as [|ev evs IH]; intros s s'; cbn.
  - intros [= <-]. auto.
  - destruct (step env ev s) as [s1|] eqn:Hstep; [|discriminate].
    intros H Hs. eapply IH; [eassumption|]. eapply step_wellFormed; eassumption.
Qed.

(** Every task leaves the transcript as it was or appends turns to it. *)
Lemma step_messages env ev s s' :
  step env ev s = Some s' ->
  exists added, messages s' = messages s ++ added /\ Forall turn added.
Proof.
  assert (Hnone : forall t : State, messages t = messages s ->
            exists added, messages t = messages s ++ added /\ Forall turn added).
  { intros t Ht. exists []. rewrite app_nil_r. auto. }
  assert (Hsend : forall e,
            exists added, messages (run (handleSend env e) s) = messages s ++ added
                          /\ Forall turn added).
  { intros e. destruct (userInput env) eqn:Hu.
    - destruct (trim (value s)) as [|c t] eqn:Ht.
      + unfold run. rewrite handleSend_noop by assumption. auto.
      + exists [userTurn (c :: t)]. split.
        * apply handleSend_messages; [assumption | assumption | discriminate].
        * constructor; [|constructor]. left. exists (c :: t). split; [discriminate | reflexivity].
    - unfold run. rewrite handleSend_no_input by assumption. auto. }
  destruct ev as [v | | | key shiftKey | n fetched | n]; cbn [step].
  - destruct (userInput env); [|discriminate]. intros [= <-]. auto.
  - intros [= <-]. auto.
  - destruct ((chatForm env || sendBtn env) && negb (sendBtn env && disabled s));
      [|discriminate]. intros [= <-]. auto.
  - destruct (userInput env && focused s); [|discriminate].
    destruct (streq key (lit "Enter") && negb shiftKey); intros [= <-]; auto.
  - destruct (takeCall n (pendingCalls s)) as [[c rest]|]; [|discriminate].
    intros [= <-].
    destruct (getChatCompletion_resume fetched) as [reply|m] eqn:Hr.
    + exists [assistantTurn reply]. split.
      * rewrite (resume_success_messages _ _ _ _ _ Hr). reflexivity.
      * constructor; [|constructor]. right. exists reply. split; [|reflexivity].
        destruct (reply_read _ _ Hr) as (? & ? & ? & ? & ? & ? & ?). assumption.
    + apply Hnone. rewrite (resume_failure_messages _ _ _ _ _ Hr). reflexivity.
  - destruct (takeTimer n (timers s)); [|discriminate]. intros [= <-]. auto.
Qed.

Lemma steps_messages env evs : forall s s',
  steps env evs s = Some s' ->
  exists added, messages s' = messages s ++ added /\ Forall turn added.
Proof.
  induction evs as [|ev evs IH]; intros s s'; cbn.
  - intros [= <-]. exists []. rewrite app_nil_r. auto.
  - destruct (step env ev s) as [s1|] eqn:Hstep; [|discriminate]. intros H.
    destruct (step_messages _ _ _ _ Hstep) as (a1 & H1 & F1).
    destruct (IH _ _ H) as (a2 & H2 & F2).
    exists (a1 ++ a2). rewrite H2, H1, app_assoc. split; [reflexivity|].
    apply Forall_app. auto.
Qed.

(** ** The three ways a completion call fails *)

Lemma fails_transport message : fails (Throw message) message.
Proof. reflexivity. Qed.

Lemma fails_status resp errText :
  ok resp = false -> text resp = Normal errText ->
  fails (Normal resp)
    (lit "API request failed: " ++ ofNumber (status resp) ++ lit " " ++ errText).
Proof.
  intros Hok Ht. unfold fails, getChatCompletion_resume, cbind.
  rewrite Hok, Ht. reflexivity.
Qed.

Lemma fails_no_reply resp data :
  ok resp = true -> json_ resp = Normal data ->
  truthy (assistantContent data) = false ->
  fails (Normal resp) (lit "No assistant message found in API response.").
Proof.
  intros Hok Hj Ht. unfold fails, getChatCompletion_resume, cbind.
  rewrite Hok, Hj. cbv [negb].
  destruct (assistantContent data) as [v|]; [|reflexivity].
  rewrite Ht. reflexivity.
Qed.

Lemma callFails_fails fetched :
  callFails fetched -> exists message, fails fetched message.
Proof.
  intros [m | resp Hok | resp Hok Hnone].
  - eexists. apply fails_transport.
  - destruct (text resp) as [errText|m] eqn:Ht.
    + eexists. apply fails_status; eassumption.
    + exists m. unfold fails, getChatCompletion_resume, cbind.
      rewrite Hok, Ht. reflexivity.
  - destruct (json_ resp) as [data|m] eqn:Hj.
    + eexists. eapply fails_no_reply; eauto.
    + exists m. unfold fails, getChatCompletion_resume, cbind.
      rewrite Hok, Hj. reflexivity.
Qed.

(** Every failure of [getChatCompletion] is one of the three. *)
Lemma fails_callFails fetched message :
  fails fetched message -> callFails fetched.
Proof.
  unfold fails. intros H.
  destruct fetched as [resp|m]; [|constructor].
  destruct (ok resp) eqn:Hok; [|now apply badStatus].
  apply noReply; [assumption|]. intros data Hj.
  destruct (truthy (assistantContent data)) eqn:Ht; [|reflexivity].
  unfold getChatCompletion_resume, cbind in H. rewrite Hok, Hj in H.
  cbv [negb] in H.
  destruct (assistantContent data) as [v|]; [|discriminate].
  rewrite Ht in H. discriminate.
Qed.

Lemma demo_complete : complete demo.
Proof. repeat split. Qed.

(** * The claims *)



(** C2: in every state the session can reach, by any sequence of sends and
    settlements, the first element of the transcript is the seed system
    message, and whatever happens next only appends to the transcript: the
    messages already there stay, unchanged and in their order. *)
Theorem transcript_seed_first_append_only
    (env : Env) (kids : list Element) (evs : list Event) (s : State) :
  steps env evs (initial kids) = Some s ->
  hd_error (messages s) = Some seed
  /\ (forall ev s', step env ev s = Some s' ->
        exists added, messages s' = messages s ++ added)
  /\ (forall evs' s', steps env evs' s = Some s' ->
        exists added, messages s' = messages s ++ added).
Proof.
  intros H. destruct (steps_messages _ _ _ _ H) as (a & Ha & _).
  split; [rewrite Ha; reflexivity|]. split.
  - intros ev s' Hs. destruct (step_messages _ _ _ _ Hs) as (b & Hb & _). eauto.
  - intros evs' s' Hs. destruct (steps_messages _ _ _ _ Hs) as (b & Hb & _). eauto.
Qed.

Lemma transcript_seed_first_append_only_witness :
  exists s,
    steps demo [Edit (lit "hello"); Submit;
                Settle 2 (Normal (replyWith (JStr (lit "hi"))))] (initial [])
    = Some s
    /\ hd_error (messages s) = Some seed.
Proof.
  eexists. split; [vm_compute; reflexivity|].
  refine (proj1 (transcript_seed_first_append_only demo []
            [Edit (lit "hello"); Submit;
             Settle 2 (Normal (replyWith (JStr (lit "hi"))))] _ _)).
  vm_compute. reflexivity.
Defined.

(** C3: when the completion call fails, in whatever way (transport error,
    non-2xx status, or no reply in the response: every failure is one of
    the three, and each of the three is a failure), [handleSend] renders an
    error bubble and appends nothing to the transcript: it is, and is as
    long, as it was before the failure, so after a whole cycle it holds the
    user message of the cycle and neither an assistant nor an error
    message. *)
Theorem failed_call_leaves_transcript
    (env : Env) (c : Call) (fetched : Completion Response)
    (message : jsstring) (s : State) :
  chatContainer env = true -> fails fetched message ->
  callFails fetched
  /\ messages (run (handleSend_resume env c fetched) s) = messages s
  /\ List.length (messages (run (handleSend_resume env c fetched) s))
     = List.length (messages s)
  /\ (exists before,
        children (run (handleSend_resume env c fetched) s)
        = before ++ [assistantBubble (nextNode s) (JStr (lit "Error: " ++ message))])
  /\ (forall ev s0 text,
        userInput env = true -> trim (value s0) = text -> text <> [] ->
        messages (run (handleSend_resume env c fetched) (run (handleSend env ev) s0))
        = messages s0 ++ [userTurn text])
  /\ (forall other, callFails other -> exists m, fails other m).
Proof.
  intros Hc Hm.
  split; [exact (fails_callFails fetched message Hm)|].
  pose proof (resume_failure_messages env c fetched message s Hm) as Hsame.
  split; [exact Hsame|]. split; [now rewrite Hsame|]. split; [|split].
  - now apply resume_failure_bubble.
  - intros ev s0 text Hu Ht Hne.
    rewrite (resume_failure_messages env c fetched message _ Hm).
    now apply handleSend_messages.
  - exact callFails_fails.
Qed.

(** A response 200 whose body is not JSON: [resp.json()] rejects. *)
Lemma failed_call_leaves_transcript_witness :
  fails (Normal {| status := 200;
                   text := Normal (lit "<html>");
                   json_ := Throw (lit "Unexpected token '<'") |})
    (lit "Unexpected token '<'")
  /\ messages (run (handleSend_resume demo
                      {| typingEl := 2; awaited := completionRequest [] |}
                      (Normal {| status := 200;
                                 text := Normal (lit "<html>");
                                 json_ := Throw (lit "Unexpected token '<'") |}))
                 (run (handleSend demo true) (typed (lit "hello"))))
     = messages (run (handleSend demo true) (typed (lit "hello"))).
Proof.
  split; [reflexivity|].
  refine (proj1 (proj2 (failed_call_leaves_transcript demo
            {| typingEl := 2; awaited := completionRequest [] |}
            (Normal {| status := 200;
                       text := Normal (lit "<html>");
                       json_ := Throw (lit "Unexpected token '<'") |})
            (lit "Unexpected token '<'")
            (run (handleSend demo true) (typed (lit "hello"))) _ _)));
    reflexivity.
Defined.

(** C4 (what the script does where the claim fails): the button is disabled
    while a call is pending, and the host then delivers no submit; but the
    [keydown] listener of the input calls [handleSend()] without looking at
    the button, so Enter in the input field while a call is pending starts
    a second cycle: two calls are suspended and two requests have left. *)
Theorem enter_while_pending_starts_second_call :
  exists s1 s2,
    steps demo [Edit (lit "a"); Keydown (lit "Enter") false] (initial []) = Some s1
    /\ disabled s1 = true
    /\ List.length (pendingCalls s1) = 1
    /\ step demo Submit s1 = None
    /\ steps demo [Edit (lit "b"); Keydown (lit "Enter") false] s1 = Some s2
    /\ List.length (pendingCalls s2) = 2
    /\ List.length (outbox s2) = 2
    /\ map role (messages s2) = [lit "system"; lit "user"; lit "user"].
Proof.
  eexists. eexists.
  split; [vm_compute; reflexivity|].
  repeat split; vm_compute; reflexivity.
Qed.

(** C5: on both ways out of a send cycle the cleanup runs.  From the start
    of the cycle its typing indicator is in the chat window and the send
    button is disabled, and the start adds only the user message to the
    transcript; in every reachable state the indicator of every pending call
    is in the chat window; and when a pending call settles, with a reply or
    with a failure, its indicator is gone from the chat window, the button
    is enabled, the input has the focus, and the transcript has gained
    nothing but, on success, the reply. *)
Theorem cleanup_on_both_paths (env : Env) :
  complete env ->
  (forall ev s text,
     trim (value s) = text -> text <> [] ->
     disabled (run (handleSend env ev) s) = true
     /\ shownIn (S (nextNode s)) (children (run (handleSend env ev) s))
     /\ In (S (nextNode s)) (map typingEl (pendingCalls (run (handleSend env ev) s)))
     /\ messages (run (handleSend env ev) s) = messages s ++ [userTurn text])
  /\ (forall kids evs s c,
        steps env evs (initial kids) = Some s -> In c (pendingCalls s) ->
        shownIn (typingEl c) (children s))
  /\ (forall kids evs s c fetched,
        steps env evs (initial kids) = Some s -> In c (pendingCalls s) ->
        exists s',
          step env (Settle (typingEl c) fetched) s = Some s'
          /\ (forall el, In el (children s') -> node el <> typingEl c)
          /\ ~ In (typingEl c) (map typingEl (pendingCalls s'))
          /\ disabled s' = false
          /\ focused s' = true
          /\ (messages s' = messages s
              \/ exists reply, succeeds fetched reply
                   /\ messages s' = messages s ++ [assistantTurn reply])).
Proof.
  intros Henv. split; [|split].
  - intros ev s text Ht Hne.
    destruct (handleSend_started env ev s text Henv Ht Hne)
      as (_ & Hm & _ & Hd & _ & Hp & _ & before & el & Hch & Hn & Hcl & _).
    split; [exact Hd|]. split; [|split; [|exact Hm]].
    + rewrite Hch. apply shownIn_app_r. exists el. cbn. tauto.
    + rewrite Hp, map_app, in_app_iff. cbn. tauto.
  - intros kids evs s c Hs Hin.
    destruct (steps_wellFormed _ _ _ _ Hs (initial_wellFormed kids)) as [_ Hall].
    now apply Hall.
  - intros kids evs s c fetched Hs Hin.
    destruct (steps_wellFormed _ _ _ _ Hs (initial_wellFormed kids)) as [Hnd Hall].
    destruct (takeCall_found _ _ _ Hin eq_refl) as (c' & rest & Htake).
    destruct (takeCall_split _ _ _ _ Htake) as (l1 & l2 & Hcs & -> & Hn).
    unfold step. rewrite Htake. eexists. split; [reflexivity|].
    destruct (resume_cleanup env c' fetched
                (with_pendingCalls (fun _ => l1 ++ l2) s) Henv)
      as (_ & Hd & Hf & Hgone).
    destruct (resume_keeps env c' fetched
                (with_pendingCalls (fun _ => l1 ++ l2) s)) as [_ Hp].
    split; [|split; [|split; [exact Hd | split; [exact Hf|]]]].
    + rewrite <- Hn. apply Hgone. cbn.
      assert (In c' (pendingCalls s)) by (rewrite Hcs, in_app_iff; cbn; tauto).
      destruct (Hall c' H). lia.
    + rewrite Hp. cbn. rewrite Hcs, map_app in Hnd. cbn in Hnd.
      apply NoDup_remove_2 in Hnd. rewrite <- Hn, map_app. exact Hnd.
    + destruct (getChatCompletion_resume fetched) as [reply|m] eqn:Hr.
      * right. exists reply. split; [exact Hr|].
        now rewrite (resume_success_messages env c' fetched reply _ Hr).
      * left. now rewrite (resume_failure_messages env c' fetched m _ Hr).
Qed.

Lemma cleanup_on_both_paths_witness :
  complete demo
  /\ disabled (run (handleSend demo true) (typed (lit "hello"))) = true.
Proof.
  split; [exact demo_complete|].
  refine (proj1 (proj1 (cleanup_on_both_paths demo demo_complete)
                   true (typed (lit "hello")) (lit "hello") _ _)).
  - reflexivity.
  - discriminate.
Defined.

(** C6: for every input whose trimmed text is empty (an empty input, or one
    of white space only), [handleSend] does nothing: it returns with the
    state, transcript, page and requests sent included, as it was. *)
Theorem empty_input_is_noop (env : Env) (ev : bool) (s : State) :
  forallb isWhiteSpace (value s) = true ->
  trim (value s) = []
  /\ handleSend env ev s = (Normal tt, s)
  /\ messages (run (handleSend env ev) s) = messages s
  /\ children (run (handleSend env ev) s) = children s
  /\ outbox (run (handleSend env ev) s) = outbox s.
Proof.
  intros H. apply trim_nil_iff in H. split; [exact H|].
  unfold run. rewrite (handleSend_noop env ev s H). repeat split.
Qed.

Lemma empty_input_is_noop_witness :
  forallb isWhiteSpace (value (typed [32; 9; 160; 10]%N)) = true
  /\ handleSend demo true (typed [32; 9; 160; 10]%N)
     = (Normal tt, typed [32; 9; 160; 10]%N).
Proof.
  split; [reflexivity|].
  refine (proj1 (proj2 (empty_input_is_noop demo true (typed [32; 9; 160; 10]%N) _))).
  reflexivity.
Defined.

(** C7: for every response whose status S is not 2xx and whose body reads
    as the text B, the completion call fails, the error bubble rendered to
    the user holds a text that contains the digits of S and contains B, and
    nothing is appended to the transcript. *)
Theorem bad_status_error_shows_status_and_body
    (env : Env) (c : Call) (resp : Response) (B : jsstring) (s : State) :
  chatContainer env = true -> ok resp = false -> text resp = Normal B ->
  exists message before,
    fails (Normal resp) message
    /\ children (run (handleSend_resume env c (Normal resp)) s)
       = before ++ [assistantBubble (nextNode s) (JStr (lit "Error: " ++ message))]
    /\ includes (lit "Error: " ++ message) (ofNumber (status resp))
    /\ includes (lit "Error: " ++ message) B
    /\ messages (run (handleSend_resume env c (Normal resp)) s) = messages s.
Proof.
  intros Hc Hok Ht. pose proof (fails_status resp B Hok Ht) as Hm.
  destruct (resume_failure_bubble env c _ _ s Hc Hm) as (before & Hb).
  eexists. exists before. split; [exact Hm|]. split; [exact Hb|].
  split; [|split].
  - apply includes_app_r, includes_mid.
  - apply includes_app_r, includes_app_r, includes_app_r, includes_suffix.
  - exact (resume_failure_messages env c _ _ s Hm).
Qed.

Lemma bad_status_error_shows_status_and_body_witness :
  ok internalError = false
  /\ exists message,
       fails (Normal internalError) message
       /\ includes (lit "Error: " ++ message) (lit "500")
       /\ includes (lit "Error: " ++ message) (lit "internal error").
Proof.
  split; [reflexivity|].
  destruct (bad_status_error_shows_status_and_body demo
              {| typingEl := 2; awaited := completionRequest [] |}
              internalError (lit "internal error")
              (run (handleSend demo true) (typed (lit "hello")))
              eq_refl eq_refl eq_refl)
    as (message & _ & Hm & _ & H1 & H2 & _).
  exists message. split; [exact Hm|]. split; [exact H1 | exact H2].
Defined.

(** C8: a send cycle issues exactly one request, a POST to the worker whose
    body is [{ model: "gpt-4o", messages }] with [messages] the whole
    transcript in order, the user turn just appended included; the rest of
    the cycle issues none; and the reply of a successful call is what
    [choices[0].message.content] of the parsed response holds. *)
Theorem one_post_with_full_transcript
    (env : Env) (ev : bool) (s : State) (text : jsstring) :
  complete env -> trim (value s) = text -> text <> [] ->
  outbox (run (handleSend env ev) s)
  = outbox s
    ++ [{| url := WORKER_URL;
           method := lit "POST";
           headers := [(lit "Content-Type", lit "application/json")];
           body := JObj
             [(lit "model", JStr (lit "gpt-4o"));
              (lit "messages",
               JArr (map messageJson (messages s ++ [userTurn text])))] |}]
  /\ (forall c fetched s1,
        outbox (run (handleSend_resume env c fetched) s1) = outbox s1)
  /\ (forall fetched reply, succeeds fetched reply ->
        exists resp data,
          fetched = Normal resp /\ json_ resp = Normal data
          /\ Some data ?. member (lit "choices") ?. index0
                       ?. member (lit "message") ?. member (lit "content")
             = Some reply)
  /\ (forall content others,
        assistantContent
          (JObj [(lit "choices",
                  JArr (JObj [(lit "message", JObj [(lit "content", content)])]
                        :: others))])
        = Some content).
Proof.
  intros Henv Ht Hne.
  destruct (handleSend_started env ev s text Henv Ht Hne)
    as (_ & _ & _ & _ & _ & _ & Ho & _).
  split; [exact Ho|]. split; [|split].
  - intros c fetched s1. apply resume_outbox.
  - intros fetched reply H.
    destruct (reply_read _ _ H) as (resp & data & Hf & _ & Hj & Hc & _).
    exists resp, data. auto.
  - intros content others. reflexivity.
Qed.

Lemma one_post_with_full_transcript_witness :
  complete demo
  /\ outbox (run (handleSend demo true) (typed (lit " hello ")))
     = [completionRequest [seed; userTurn (lit "hello")]].
Proof.
  split; [exact demo_complete|].
  refine (proj1 (one_post_with_full_transcript demo true (typed (lit " hello "))
                   (lit "hello") demo_complete _ _)).
  - reflexivity.
  - discriminate.
Defined.

Lemma handleSend_withKey k env ev s :
  handleSend (withKey k env) ev s = handleSend env ev s.
Proof. reflexivity. Qed.

Lemma handleSend_resume_withKey k env c fetched s :
  handleSend_resume (withKey k env) c fetched s = handleSend_resume env c fetched s.
Proof. reflexivity. Qed.

Lemma step_withKey k env ev s : step (withKey k env) ev s = step env ev s.
Proof. destruct ev; reflexivity. Qed.

Lemma steps_withKey k env evs : forall s,
  steps (withKey k env) evs s = steps env evs s.
Proof.
  induction evs as [|ev evs IH]; intros s; cbn; [reflexivity|].
  rewrite step_withKey. destruct (step env ev s); [apply IH | reflexivity].
Qed.

Lemma load_withKey p w1 w2 :
  load p w1 = withKey (apiKey (load p w1)) (load p w2).
Proof. reflexivity. Qed.

(** [apiKey] does take the value that [secrets.js] gives it. *)
Example apiKey_read_from_window :
  apiKey (load fullPage (withSecret (lit "sk-1"))) = Some (JStr (lit "sk-1"))
  /\ apiKey (load fullPage noSecrets) = Some (JStr (lit "")).
Proof. split; reflexivity. Qed.

(** C9: no API key reaches the outbound request.  Whatever the globals that
    [apiKey] is read from hold, each one absent or any value, the script
    does the same on every sequence of events: the requests it sends, URL,
    method, headers and body, are the same, and depend on the transcript
    and the constants of the script only. *)
Theorem api_key_never_reaches_request
    (p : Page) (w1 w2 : Window) (evs : list Event) (s : State) :
  steps (load p w1) evs s = steps (load p w2) evs s
  /\ option_map outbox (steps (load p w1) evs s)
     = option_map outbox (steps (load p w2) evs s)
  /\ (forall convMessages,
        getChatCompletion (load p w1) convMessages s
        = getChatCompletion (load p w2) convMessages s)
  /\ (forall convMessages,
        fst (getChatCompletion (load p w1) convMessages s)
        = Normal (completionRequest convMessages)).
Proof.
  assert (H : steps (load p w1) evs s = steps (load p w2) evs s)
    by (rewrite (load_withKey p w1 w2); apply steps_withKey).
  split; [exact H|]. split; [now rewrite H|]. split; reflexivity.
Qed.

(** C10: a 2xx response whose JSON parses but whose
    [choices[0].message.content] is the empty string, or any other falsy
    value, or is missing, is a failure: [getChatCompletion] throws "No
    assistant message found in API response.", an error bubble is rendered,
    nothing is appended to the transcript; and in no reachable state does
    the transcript hold an assistant message whose content is falsy, the
    empty string included. *)
Theorem falsy_reply_is_failure
    (env : Env) (c : Call) (resp : Response) (data : json) (s : State) :
  chatContainer env = true -> ok resp = true -> json_ resp = Normal data ->
  truthy (assistantContent data) = false ->
  fails (Normal resp) (lit "No assistant message found in API response.")
  /\ messages (run (handleSend_resume env c (Normal resp)) s) = messages s
  /\ (exists before,
        children (run (handleSend_resume env c (Normal resp)) s)
        = before
          ++ [assistantBubble (nextNode s)
                (JStr (lit "Error: No assistant message found in API response."))])
  /\ (forall kids evs s' m,
        steps env evs (initial kids) = Some s' -> In m (messages s') ->
        role m = lit "assistant" ->
        truthy (Some (content m)) = true /\ content m <> JStr (lit "")).
Proof.
  intros Hc Hok Hj Ht. pose proof (fails_no_reply resp data Hok Hj Ht) as Hm.
  split; [exact Hm|]. split; [exact (resume_failure_messages env c _ _ s Hm)|].
  split; [exact (resume_failure_bubble env c _ _ s Hc Hm)|].
  intros kids evs s' m Hs Hin Hrole.
  destruct (steps_messages _ _ _ _ Hs) as (added & Ha & Hall).
  rewrite Ha in Hin. cbn in Hin. destruct Hin as [<- | Hin]; [discriminate|].
  rewrite Forall_forall in Hall.
  destruct (Hall m Hin) as [(t & _ & ->) | (reply & Hr & ->)]; [discriminate|].
  split; [exact Hr|]. cbn. intros ->. discriminate.
Qed.

Lemma falsy_reply_is_failure_witness :
  truthy (assistantContent
            (JObj [(lit "choices",
                    JArr [JObj [(lit "message",
                                 JObj [(lit "content", JStr (lit ""))])]])]))
  = false
  /\ fails (Normal (replyWith (JStr (lit ""))))
       (lit "No assistant message found in API response.").
Proof.
  split; [reflexivity|].
  refine (proj1 (falsy_reply_is_failure demo
                   {| typingEl := 2; awaited := completionRequest [] |}
                   (replyWith (JStr (lit ""))) _
                   (run (handleSend demo true) (typed (lit "hello"))) _ _ _ _));
    reflexivity.
Defined.

(** * Further properties of the script *)

(** ** What [trim] leaves *)

Lemma trimStart_head (s : jsstring) (c : N) (t : jsstring) :
  trimStart s = c :: t -> isWhiteSpace c = false.
Proof.
  induction s as [|a s IH]; cbn; [discriminate|].
  destruct (isWhiteSpace a) eqn:Ha; [exact IH|].
  intros [= <- <-]. exact Ha.
Qed.

Lemma trimStart_idem (s : jsstring) : trimStart (trimStart s) = trimStart s.
Proof.
  destruct (trimStart s) as [|c t] eqn:H; [reflexivity|].
  cbn. now rewrite (trimStart_head s c t H).
Qed.

Lemma trimStart_length (s : jsstring) :
  List.length (trimStart s) <= List.length s.
Proof.
  induction s as [|a s IH]; cbn; [lia|].
  destruct (isWhiteSpace a); cbn; lia.
Qed.

Lemma trimStart_fixed_head (c : N) (t : jsstring) :
  trimStart (c :: t) = c :: t -> isWhiteSpace c = false.
Proof.
  cbn. destruct (isWhiteSpace c); [|reflexivity].
  intros H. pose proof (trimStart_length t) as Hl.
  rewrite H in Hl. cbn in Hl. lia.
Qed.

(** What [trim] returns has white space at neither end. *)
Lemma trim_clean (s : jsstring) :
  trimStart (trim s) = trim s /\ trimStart (rev (trim s)) = rev (trim s).
Proof.
  unfold trim, trimEnd.
  set (w := trimStart s).
  destruct (trimStart_suffix (rev w)) as (ws & Hw & Hws).
  set (u := trimStart (rev w)) in *.
  split.
  - destruct (rev u) as [|c t] eqn:Hu; [reflexivity|].
    assert (Hrw : w = (c :: t) ++ rev ws).
    { rewrite <- (rev_involutive w), Hw, rev_app_distr, Hu. reflexivity. }
    assert (Hfix : trimStart w = w) by apply trimStart_idem.
    rewrite Hrw in Hfix. cbn [app] in Hfix.
    apply trimStart_fixed_head in Hfix. cbn. now rewrite Hfix.
  - rewrite rev_involutive. apply trimStart_idem.
Qed.

Lemma trim_idem (s : jsstring) : trim (trim s) = trim s.
Proof.
  destruct (trim_clean s) as [H1 H2].
  unfold trim at 1. unfold trimEnd. rewrite H1, H2. apply rev_involutive.
Qed.

(** ** A send, case by case *)

(** Whatever the page has, a send that passes the empty check empties the
    input field before anything can go wrong. *)
Lemma handleSend_clears env ev s :
  userInput env = true -> trim (value s) <> [] ->
  value (run (handleSend env ev) s) = [].
Proof.
  intros Hu Hne. destruct (trim (value s)) as [|c t] eqn:Ht; [contradiction|].
  page env; exec; cbn; rewrite Ht; reflexivity.
Qed.

(** The calls a send leaves suspended: the ones there were, and one more
    only on a page with button and chat window, with the button disabled. *)
Lemma handleSend_pending env ev s :
  (pendingCalls (run (handleSend env ev) s) = pendingCalls s
   /\ outbox (run (handleSend env ev) s) = outbox s)
  \/ (complete env /\ disabled (run (handleSend env ev) s) = true
      /\ trim (value s) <> []
      /\ pendingCalls (run (handleSend env ev) s)
         = pendingCalls s
           ++ [{| typingEl := S (nextNode s);
                  awaited := completionRequest
                    (messages s ++ [userTurn (trim (value s))]) |}]
      /\ outbox (run (handleSend env ev) s)
         = outbox s
           ++ [completionRequest (messages s ++ [userTurn (trim (value s))])]).
Proof.
  destruct (userInput env) eqn:Hu.
  2:{ unfold run. rewrite handleSend_no_input by assumption. auto. }
  destruct (trim (value s)) as [|c t] eqn:Ht.
  { unfold run. rewrite handleSend_noop by assumption. auto. }
  destruct (sendBtn env) eqn:Hb; [destruct (chatContainer env) eqn:Hc|].
  - right.
    destruct (handleSend_started env ev s (c :: t)) as (_ & _ & _ & Hd & _ & Hp & Ho & _);
      [repeat split; assumption | assumption | discriminate |].
    repeat split; try assumption. discriminate.
  - left. page env; try discriminate; exec; cbn; rewrite Ht; auto.
  - left. page env; try discriminate; exec; cbn; rewrite Ht; auto.
Qed.

(** A send changes [disabled] only to [true]. *)
Lemma handleSend_disabled env ev s :
  disabled (run (handleSend env ev) s) = disabled s
  \/ (sendBtn env = true /\ trim (value s) <> []
      /\ disabled (run (handleSend env ev) s) = true).
Proof.
  destruct (userInput env) eqn:Hu.
  2:{ unfold run. rewrite handleSend_no_input by assumption. auto. }
  destruct (trim (value s)) as [|c t] eqn:Ht.
  { unfold run. rewrite handleSend_noop by assumption. auto. }
  page env; try discriminate; exec; cbn; rewrite Ht; cbn; auto.
  all: right; repeat split; discriminate.
Qed.

(** X1: a second send right after a send does nothing.  Whatever the page
    has and whatever the first send came to, it left the input field empty
    or found it so, and the second returns at the empty check: without a
    new text in the input no second request leaves. *)
Theorem repeated_send_is_noop (env : Env) (e1 e2 : bool) (s : State) :
  handleSend env e2 (run (handleSend env e1) s)
  = (Normal tt, run (handleSend env e1) s).
Proof.
  destruct (userInput env) eqn:Hu.
  - destruct (trim (value s)) as [|c t] eqn:Ht.
    + unfold run at 1 2. rewrite (handleSend_noop env e1 s Ht). cbn.
      now apply handleSend_noop.
    + apply handleSend_noop. rewrite handleSend_clears; [reflexivity | assumption |].
      rewrite Ht. discriminate.
  - now apply handleSend_no_input.
Qed.

(** ** The button as a lock *)

Lemma step_locked env ev s s' :
  noEnter ev = true -> step env ev s = Some s' -> locked env s -> locked env s'.
Proof.
  destruct ev as [v | | | key shiftKey | n fetched | n]; unfold step; intros Hev.
  - destruct (userInput env); [|discriminate]. intros [= <-]. auto.
  - intros [= <-]. auto.
  - destruct ((chatForm env || sendBtn env) && negb (sendBtn env && disabled s))
      eqn:Hgate; [|discriminate].
    intros [= <-] [Hp | (_ & Hd & Hb)].
    + destruct (handleSend_pending env true s) as [[Hsame _] | (Hc & Hd & _ & Hnew & _)].
      * left. congruence.
      * right. rewrite Hnew, Hp. split; [eexists; reflexivity|].
        split; [assumption | apply Hc].
    + rewrite Hd, Hb, andb_false_r in Hgate. discriminate.
  - destruct (userInput env && focused s); [|discriminate].
    unfold noEnter in Hev. apply negb_true_iff in Hev. rewrite Hev.
    intros [= <-]. auto.
  - destruct (takeCall n (pendingCalls s)) as [[c rest]|] eqn:Htake; [|discriminate].
    intros [= <-] Hl. left.
    destruct (resume_keeps env c fetched (with_pendingCalls (fun _ => rest) s))
      as [_ Hk]. cbn in Hk. rewrite Hk.
    destruct (takeCall_split _ _ _ _ Htake) as (l1 & l2 & Hcs & -> & _).
    destruct Hl as [Hp | ((c0 & Hp) & _)]; rewrite Hp in Hcs.
    + destruct l1; discriminate.
    + destruct l1 as [|? [|? ?]]; [|discriminate..].
      injection Hcs as _ <-. reflexivity.
  - destruct (takeTimer n (timers s)); [|discriminate]. intros [= <-]. auto.
Qed.

Lemma steps_locked env evs : forall s s',
  forallb noEnter evs = true -> steps env evs s = Some s' ->
  locked env s -> locked env s'.
Proof.
  induction evs as [|ev evs IH]; intros s s'; cbn.
  - intros _ [= <-]. auto.
  - intros Hall. apply andb_true_iff in Hall. destruct Hall as [Hev Hall].
    destruct (step env ev s) as [s1|] eqn:Hstep; [|discriminate].
    intros H Hs. eapply IH; [eassumption | eassumption |].
    eapply step_locked; eassumption.
Qed.

(** X2: as long as no Enter is pressed in the input field, the disabled
    button does lock the send: whatever the page has, in every state that
    submits, edits, other keys, settlements and timers lead to, at most one
    call is suspended, and while one is the button is disabled and the host
    delivers no submit. *)
Theorem submit_path_keeps_one_call
    (env : Env) (kids : list Element) (evs : list Event) (s : State) :
  forallb noEnter evs = true -> steps env evs (initial kids) = Some s ->
  List.length (pendingCalls s) <= 1
  /\ (pendingCalls s <> [] -> disabled s = true /\ step env Submit s = None).
Proof.
  intros Hev Hs.
  assert (Hl : locked env s)
    by (eapply steps_locked; [eassumption | eassumption | left; reflexivity]).
  destruct Hl as [Hp | ((c & Hp) & Hd & Hb)]; rewrite Hp; cbn.
  - split; [lia | intros []; reflexivity].
  - split; [lia | intros _]. split; [assumption|].
    rewrite Hd, Hb, andb_false_r. reflexivity.
Qed.

Lemma submit_path_keeps_one_call_witness :
  exists s,
    steps demo [Edit (lit "a"); Submit; Keydown (lit "b") false; Blur] (initial [])
    = Some s
    /\ List.length (pendingCalls s) <= 1.
Proof.
  eexists. split; [vm_compute; reflexivity|].
  refine (proj1 (submit_path_keeps_one_call demo []
            [Edit (lit "a"); Submit; Keydown (lit "b") false; Blur] _ _ _));
    vm_compute; reflexivity.
Defined.

Lemma step_enabled_when_idle env ev s s' :
  complete env -> step env ev s = Some s' ->
  (disabled s = true -> pendingCalls s <> []) ->
  disabled s' = true -> pendingCalls s' <> [].
Proof.
  intros Henv.
  assert (Hsend : forall e,
            (disabled s = true -> pendingCalls s <> []) ->
            disabled (run (handleSend env e) s) = true ->
            pendingCalls (run (handleSend env e) s) <> []).
  { intros e IH. destruct (trim (value s)) as [|c t] eqn:Ht.
    - unfold run. rewrite handleSend_noop by assumption. exact IH.
    - intros _.
      destruct (handleSend_started env e s (c :: t) Henv Ht)
        as (_ & _ & _ & _ & _ & Hp & _); [discriminate|].
      rewrite Hp. intros H. apply app_eq_nil in H. destruct H; discriminate. }
  destruct ev as [v | | | key shiftKey | n fetched | n]; unfold step.
  - destruct (userInput env); [|discriminate]. intros [= <-]. auto.
  - intros [= <-]. auto.
  - destruct ((chatForm env || sendBtn env) && negb (sendBtn env && disabled s));
      [|discriminate]. intros [= <-]. auto.
  - destruct (userInput env && focused s); [|discriminate].
    destruct (streq key (lit "Enter") && negb shiftKey); intros [= <-]; auto.
  - destruct (takeCall n (pendingCalls s)) as [[c rest]|]; [|discriminate].
    intros [= <-] _ Hd.
    destruct (resume_cleanup env c fetched
                (with_pendingCalls (fun _ => rest) s) Henv) as (_ & Hf & _).
    cbn in Hf. congruence.
  - destruct (takeTimer n (timers s)); [|discriminate]. intros [= <-]. auto.
Qed.

Lemma steps_enabled_when_idle env evs : forall s0 s,
  complete env -> steps env evs s0 = Some s ->
  (disabled s0 = true -> pendingCalls s0 <> []) ->
  disabled s = true -> pendingCalls s <> [].
Proof.
  induction evs as [|ev evs IH]; intros s0 s Henv; cbn.
  - intros [= <-]. auto.
  - destruct (step env ev s0) as [s1|] eqn:Hstep; [|discriminate].
    intros H H0. eapply IH; [eassumption | eassumption |].
    eapply step_enabled_when_idle; eassumption.
Qed.

(** X3: on a page that has input, button and chat window the button is
    never left disabled.  It is enabled when the script has loaded, and in
    every reachable state in which it is disabled a call is still
    suspended, whose settlement will enable it. *)
Theorem button_disabled_only_while_pending
    (env : Env) (kids : list Element) (evs : list Event) (s : State) :
  complete env -> steps env evs (initial kids) = Some s ->
  disabled (initial kids) = false
  /\ (disabled s = true -> pendingCalls s <> [])
  /\ (pendingCalls s = [] -> disabled s = false).
Proof.
  intros Henv Hs. split; [reflexivity|].
  assert (H : disabled s = true -> pendingCalls s <> []).
  { eapply steps_enabled_when_idle; [eassumption | eassumption |].
    cbn. discriminate. }
  split; [exact H|].
  intros Hp. destruct (disabled s); [|reflexivity]. now destruct H.
Qed.

Lemma button_disabled_only_while_pending_witness :
  exists s,
    steps demo [Edit (lit "a"); Submit;
                Settle 2 (Normal (replyWith (JStr (lit "hi"))))] (initial [])
    = Some s
    /\ disabled s = false.
Proof.
  eexists. split; [vm_compute; reflexivity|].
  refine (proj2 (proj2 (button_disabled_only_while_pending demo []
            [Edit (lit "a"); Submit;
             Settle 2 (Normal (replyWith (JStr (lit "hi"))))] _
            demo_complete _)) _); vm_compute; reflexivity.
Defined.

(** ** Pages that lack an element *)

Lemma step_silent env ev s s' :
  ~ complete env -> step env ev s = Some s' ->
  pendingCalls s = [] /\ outbox s = [] ->
  pendingCalls s' = [] /\ outbox s' = [].
Proof.
  intros Henv.
  assert (Hsend : forall e, pendingCalls s = [] /\ outbox s = [] ->
            pendingCalls (run (handleSend env e) s) = []
            /\ outbox (run (handleSend env e) s) = []).
  { intros e [Hp Ho].
    destruct (handleSend_pending env e s) as [[Hp' Ho'] | (Hc & _)];
      [split; congruence | contradiction]. }
  destruct ev as [v | | | key shiftKey | n fetched | n]; unfold step.
  - destruct (userInput env); [|discriminate]. intros [= <-]. auto.
  - intros [= <-]. auto.
  - destruct ((chatForm env || sendBtn env) && negb (sendBtn env && disabled s));
      [|discriminate]. intros [= <-]. auto.
  - destruct (userInput env && focused s); [|discriminate].
    destruct (streq key (lit "Enter") && negb shiftKey); intros [= <-]; auto.
  - intros H [Hp _]. rewrite Hp in H. discriminate.
  - destruct (takeTimer n (timers s)); [|discriminate]. intros [= <-]. auto.
Qed.

(** X4: on a page that lacks the input, the button or the chat window the
    script never reaches the network: in every reachable state no request
    has been sent and no call is suspended, so no settlement can be
    delivered either. *)
Theorem incomplete_page_never_sends
    (env : Env) (kids : list Element) (evs : list Event) (s : State) :
  ~ complete env -> steps env evs (initial kids) = Some s ->
  outbox s = [] /\ pendingCalls s = []
  /\ (forall n fetched, step env (Settle n fetched) s = None).
Proof.
  intros Henv Hs.
  assert (H : pendingCalls s = [] /\ outbox s = []).
  { assert (G : forall evs s0 s, steps env evs s0 = Some s ->
              pendingCalls s0 = [] /\ outbox s0 = [] ->
              pendingCalls s = [] /\ outbox s = []).
    { clear - Henv. intros evs. induction evs as [|ev evs IH]; intros s0 s; cbn.
      - intros [= <-]. auto.
      - destruct (step env ev s0) as [s1|] eqn:Hstep; [|discriminate].
        intros H H0. eapply IH; [eassumption|].
        eapply step_silent; eassumption. }
    eapply G; [eassumption|]. split; reflexivity. }
  destruct H as [Hp Ho]. repeat split; try assumption.
  intros n fetched. unfold step. rewrite Hp. reflexivity.
Qed.

Lemma incomplete_page_never_sends_witness :
  exists s,
    steps (load {| hasForm := true; hasInput := true; hasButton := false;
                   hasWindow := true |} noSecrets)
      [Edit (lit "a"); Keydown (lit "Enter") false] (initial [])
    = Some s
    /\ outbox s = [] /\ messages s = [seed; userTurn (lit "a")].
Proof.
  eexists. split; [vm_compute; reflexivity|]. split; [|vm_compute; reflexivity].
  refine (proj1 (incomplete_page_never_sends
            (load {| hasForm := true; hasInput := true; hasButton := false;
                     hasWindow := true |} noSecrets) []
            [Edit (lit "a"); Keydown (lit "Enter") false] _ _ _)).
  - intros (_ & H & _). discriminate H.
  - vm_compute. reflexivity.
Defined.

Lemma step_stays_disabled env ev s s' :
  chatContainer env = false -> step env ev s = Some s' ->
  disabled s = true /\ pendingCalls s = [] ->
  disabled s' = true /\ pendingCalls s' = [] /\ outbox s' = outbox s.
Proof.
  intros Hc.
  assert (Hsend : forall e, disabled s = true /\ pendingCalls s = [] ->
            disabled (run (handleSend env e) s) = true
            /\ pendingCalls (run (handleSend env e) s) = []
            /\ outbox (run (handleSend env e) s) = outbox s).
  { intros e [Hd Hp].
    destruct (handleSend_pending env e s) as [[Hp' Ho'] | ((_ & _ & Hc') & _)];
      [|congruence].
    destruct (handleSend_disabled env e s) as [Hd' | (_ & _ & Hd')];
      repeat split; congruence. }
  destruct ev as [v | | | key shiftKey | n fetched | n]; unfold step.
  - destruct (userInput env); [|discriminate]. intros [= <-]. cbn. tauto.
  - intros [= <-]. cbn. tauto.
  - destruct ((chatForm env || sendBtn env) && negb (sendBtn env && disabled s));
      [|discriminate]. intros [= <-]. auto.
  - destruct (userInput env && focused s); [|discriminate].
    destruct (streq key (lit "Enter") && negb shiftKey); intros [= <-]; auto.
    cbn. tauto.
  - intros H [_ Hp]. rewrite Hp in H. discriminate.
  - destruct (takeTimer n (timers s)); [|discriminate]. intros [= <-]. cbn. tauto.
Qed.

(** X5: on a page that has the input and the button but no chat window, a
    send with a text throws after it has recorded the user turn, emptied
    the input and disabled the button, and before any request: nothing is
    rendered, nothing is sent, and because the [finally] that enables the
    button is never reached, the button stays disabled in every state that
    follows. *)
Theorem send_without_chat_window_disables_for_good
    (env : Env) (ev : bool) (s : State) (text : jsstring) :
  userInput env = true -> sendBtn env = true -> chatContainer env = false ->
  pendingCalls s = [] -> trim (value s) = text -> text <> [] ->
  fst (handleSend env ev s) = Throw TypeError
  /\ messages (run (handleSend env ev) s) = messages s ++ [userTurn text]
  /\ value (run (handleSend env ev) s) = []
  /\ children (run (handleSend env ev) s) = children s
  /\ outbox (run (handleSend env ev) s) = outbox s
  /\ (forall evs s',
        steps env evs (run (handleSend env ev) s) = Some s' ->
        disabled s' = true /\ outbox s' = outbox s
        /\ step env Submit s' = None).
Proof.
  intros Hu Hb Hc Hp Ht Hne. destruct text as [|c t]; [contradiction|].
  assert (H0 : fst (handleSend env ev s) = Throw TypeError
               /\ messages (run (handleSend env ev) s) = messages s ++ [userTurn (c :: t)]
               /\ value (run (handleSend env ev) s) = []
               /\ children (run (handleSend env ev) s) = children s
               /\ outbox (run (handleSend env ev) s) = outbox s
               /\ disabled (run (handleSend env ev) s) = true
               /\ pendingCalls (run (handleSend env ev) s) = pendingCalls s).
  { page env; try discriminate; exec; cbn; rewrite Ht; cbn; repeat split. }
  destruct H0 as (H1 & H2 & H3 & H4 & H5 & H6 & H7).
  repeat (split; [assumption|]).
  assert (G : forall evs s0 s', steps env evs s0 = Some s' ->
            disabled s0 = true /\ pendingCalls s0 = [] ->
            disabled s' = true /\ pendingCalls s' = [] /\ outbox s' = outbox s0).
  { clear - Hc. intros evs. induction evs as [|e evs IH]; intros s0 s'; cbn.
    - intros [= <-]. tauto.
    - destruct (step env e s0) as [s1|] eqn:Hstep; [|discriminate].
      intros H H0.
      destruct (step_stays_disabled env e s0 s1 Hc Hstep H0) as (Ha & Hb & Ho).
      destruct (IH s1 s' H (conj Ha Hb)) as (? & ? & ?).
      repeat split; congruence. }
  intros evs s' Hs.
  destruct (G evs _ s' Hs) as (Hd & _ & Ho); [split; congruence|].
  split; [assumption|]. split; [congruence|].
  unfold step. rewrite Hb, Hd, andb_false_r. reflexivity.
Qed.

Lemma send_without_chat_window_disables_for_good_witness :
  fst (handleSend
         (load {| hasForm := true; hasInput := true; hasButton := true;
                  hasWindow := false |} noSecrets) true (typed (lit "hello")))
  = Throw TypeError.
Proof.
  refine (proj1 (send_without_chat_window_disables_for_good
            (load {| hasForm := true; hasInput := true; hasButton := true;
                     hasWindow := false |} noSecrets)
            true (typed (lit "hello")) (lit "hello") _ _ _ _ _ _));
    try reflexivity.
  discriminate.
Defined.

(** ** What has been sent *)

(** A task sends nothing, or it is a send that appends a user turn and posts
    the transcript it has just extended. *)
Lemma step_outbox env ev s s' :
  step env ev s = Some s' ->
  (outbox s' = outbox s
   /\ forall c, In c (pendingCalls s') -> In c (pendingCalls s))
  \/ (exists text,
        text <> []
        /\ messages s' = messages s ++ [userTurn text]
        /\ outbox s' = outbox s ++ [completionRequest (messages s ++ [userTurn text])]
        /\ exists n,
             pendingCalls s'
             = pendingCalls s
               ++ [{| typingEl := n;
                      awaited := completionRequest (messages s ++ [userTurn text]) |}]).
Proof.
  assert (Hsend : forall e,
    (outbox (run (handleSend env e) s) = outbox s
     /\ forall c, In c (pendingCalls (run (handleSend env e) s)) -> In c (pendingCalls s))
    \/ (exists text,
          text <> []
          /\ messages (run (handleSend env e) s) = messages s ++ [userTurn text]
          /\ outbox (run (handleSend env e) s)
             = outbox s ++ [completionRequest (messages s ++ [userTurn text])]
          /\ exists n,
               pendingCalls (run (handleSend env e) s)
               = pendingCalls s
                 ++ [{| typingEl := n;
                        awaited := completionRequest (messages s ++ [userTurn text]) |}])).
  { intros e.
    destruct (handleSend_pending env e s) as [[Hp Ho] | (Hc & _ & Hne & Hp & Ho)].
    - left. rewrite Hp. auto.
    - right. exists (trim (value s)). split; [assumption|].
      split; [apply handleSend_messages; [apply Hc | reflexivity | assumption]|].
      split; [assumption|]. eexists. eassumption. }
  destruct ev as [v | | | key shiftKey | n fetched | n]; unfold step.
  - destruct (userInput env); [|discriminate]. intros [= <-]. left. cbn. auto.
  - intros [= <-]. left. cbn. auto.
  - destruct ((chatForm env || sendBtn env) && negb (sendBtn env && disabled s));
      [|discriminate]. intros [= <-]. auto.
  - destruct (userInput env && focused s); [|discriminate].
    destruct (streq key (lit "Enter") && negb shiftKey); intros [= <-]; auto.
  - destruct (takeCall n (pendingCalls s)) as [[c rest]|] eqn:Htake; [|discriminate].
    intros [= <-]. left.
    pose proof (resume_outbox env c fetched (with_pendingCalls (fun _ => rest) s)) as Ho.
    destruct (resume_keeps env c fetched (with_pendingCalls (fun _ => rest) s))
      as [_ Hp].
    cbn in Ho, Hp. rewrite Ho, Hp. split; [reflexivity|].
    destruct (takeCall_split _ _ _ _ Htake) as (l1 & l2 & -> & -> & _).
    intros c0 Hin. apply in_app_iff in Hin. apply in_app_iff. cbn. tauto.
  - destruct (takeTimer n (timers s)); [|discriminate]. intros [= <-]. left.
    cbn. auto.
Qed.

Lemma step_sentFrom env ev s s' :
  step env ev s = Some s' ->
  sentFrom s /\ (forall c, In c (pendingCalls s) -> In (awaited c) (outbox s)) ->
  sentFrom s' /\ (forall c, In c (pendingCalls s') -> In (awaited c) (outbox s')).
Proof.
  intros Hstep [Hs Hw].
  destruct (step_messages _ _ _ _ Hstep) as (added & Hm & _).
  destruct (step_outbox _ _ _ _ Hstep)
    as [[Ho Hp] | (text & Hne & Hm' & Ho & n & Hp)].
  - split.
    + intros r Hr. rewrite Ho in Hr.
      destruct (Hs r Hr) as (ms & text & rest & -> & Hne & Hms).
      exists ms, text, (rest ++ added). rewrite Hm, Hms, app_assoc. auto.
    + intros c Hc. rewrite Ho. auto.
  - split.
    + intros r Hr. rewrite Ho in Hr. apply in_app_iff in Hr.
      destruct Hr as [Hr | [<- | []]].
      * destruct (Hs r Hr) as (ms & t & rest & -> & Hnt & Hms).
        exists ms, t, (rest ++ [userTurn text]).
        rewrite Hm', Hms, app_assoc. auto.
      * exists (messages s), text, []. rewrite Hm', app_nil_r. auto.
    + intros c Hc. rewrite Hp in Hc. rewrite Ho. apply in_app_iff.
      apply in_app_iff in Hc. destruct Hc as [Hc | [<- | []]]; cbn; auto.
Qed.

(** X6: whatever has been sent agrees with the transcript.  In every
    reachable state each request in flight or answered is a POST to the
    worker that carried, as [messages], a transcript ending with a user
    turn, and the present transcript still starts with exactly those
    messages; and every suspended call waits for a request that was
    sent. *)
Theorem requests_carry_prefixes_of_transcript
    (env : Env) (kids : list Element) (evs : list Event) (s : State) :
  steps env evs (initial kids) = Some s ->
  (forall r, In r (outbox s) ->
     exists ms text rest,
       r = completionRequest (ms ++ [userTurn text])
       /\ text <> []
       /\ messages s = (ms ++ [userTurn text]) ++ rest)
  /\ (forall c, In c (pendingCalls s) -> In (awaited c) (outbox s)).
Proof.
  assert (G : forall evs s0 s, steps env evs s0 = Some s ->
            sentFrom s0 /\ (forall c, In c (pendingCalls s0) -> In (awaited c) (outbox s0)) ->
            sentFrom s /\ (forall c, In c (pendingCalls s) -> In (awaited c) (outbox s))).
  { clear. intros evs. induction evs as [|ev evs IH]; intros s0 s; cbn.
    - intros [= <-]. auto.
    - destruct (step env ev s0) as [s1|] eqn:Hstep; [|discriminate].
      intros H H0. eapply IH; [eassumption|].
      eapply step_sentFrom; eassumption. }
  intros Hs. eapply G; [eassumption|].
  split; [intros r [] | intros c []].
Qed.

Lemma requests_carry_prefixes_of_transcript_witness :
  exists s,
    steps demo [Edit (lit "a"); Submit;
                Settle 2 (Normal (replyWith (JStr (lit "hi"))))] (initial [])
    = Some s
    /\ forall c, In c (pendingCalls s) -> In (awaited c) (outbox s).
Proof.
  eexists. split; [vm_compute; reflexivity|].
  refine (proj2 (requests_carry_prefixes_of_transcript demo []
            [Edit (lit "a"); Submit;
             Settle 2 (Normal (replyWith (JStr (lit "hi"))))] _ _)).
  vm_compute. reflexivity.
Defined.

(** ** What the transcript holds *)

Lemma step_trimmed env ev s s' :
  step env ev s = Some s' ->
  exists added, messages s' = messages s ++ added /\ Forall trimmedTurn added.
Proof.
  assert (Hnone : forall t : State, messages t = messages s ->
            exists added, messages t = messages s ++ added
                          /\ Forall trimmedTurn added).
  { intros t Ht. exists []. rewrite app_nil_r. auto. }
  assert (Hsend : forall e,
            exists added, messages (run (handleSend env e) s) = messages s ++ added
                          /\ Forall trimmedTurn added).
  { intros e. destruct (userInput env) eqn:Hu.
    - destruct (trim (value s)) as [|c t] eqn:Ht.
      + unfold run. rewrite handleSend_noop by assumption. auto.
      + exists [userTurn (c :: t)]. split.
        * apply handleSend_messages; [assumption | assumption | discriminate].
        * constructor; [|constructor]. intros _. exists (c :: t).
          split; [reflexivity|]. split; [discriminate|].
          rewrite <- Ht. apply trim_idem.
    - unfold run. rewrite handleSend_no_input by assumption. auto. }
  destruct ev as [v | | | key shiftKey | n fetched | n]; unfold step.
  - destruct (userInput env); [|discriminate]. intros [= <-]. auto.
  - intros [= <-]. auto.
  - destruct ((chatForm env || sendBtn env) && negb (sendBtn env && disabled s));
      [|discriminate]. intros [= <-]. auto.
  - destruct (userInput env && focused s); [|discriminate].
    destruct (streq key (lit "Enter") && negb shiftKey); intros [= <-]; auto.
  - destruct (takeCall n (pendingCalls s)) as [[c rest]|]; [|discriminate].
    intros [= <-].
    destruct (getChatCompletion_resume fetched) as [reply|m] eqn:Hr.
    + exists [assistantTurn reply]. split.
      * pose proof (resume_success_messages env c fetched reply
                      (with_pendingCalls (fun _ => rest) s) Hr) as H.
        cbn in H. exact H.
      * constructor; [|constructor]. intros H. discriminate H.
    + apply Hnone.
      pose proof (resume_failure_messages env c fetched m
                    (with_pendingCalls (fun _ => rest) s) Hr) as H.
      cbn in H. exact H.
  - destruct (takeTimer n (timers s)); [|discriminate]. intros [= <-]. auto.
Qed.

(** X7: the user turns of the transcript are trimmed.  In every reachable
    state a message of role [user] holds a text that is not empty, that
    [trim] leaves as it is, and that neither starts nor ends with white
    space, whatever was typed around it. *)
Theorem user_turns_are_trimmed
    (env : Env) (kids : list Element) (evs : list Event) (s : State) (m : Message) :
  steps env evs (initial kids) = Some s ->
  In m (messages s) -> role m = lit "user" ->
  exists text,
    content m = JStr text /\ text <> [] /\ trim text = text
    /\ isWhiteSpace (hd 0%N text) = false
    /\ isWhiteSpace (hd 0%N (rev text)) = false.
Proof.
  assert (G : forall evs s0 s, steps env evs s0 = Some s ->
            Forall trimmedTurn (messages s0) -> Forall trimmedTurn (messages s)).
  { clear. intros evs. induction evs as [|ev evs IH]; intros s0 s; cbn.
    - intros [= <-]. auto.
    - destruct (step env ev s0) as [s1|] eqn:Hstep; [|discriminate].
      intros H H0. eapply IH; [eassumption|].
      destruct (step_trimmed _ _ _ _ Hstep) as (added & -> & Ha).
      apply Forall_app. auto. }
  intros Hs Hin Hrole.
  assert (Hall : Forall trimmedTurn (messages s)).
  { eapply G; [eassumption|]. constructor; [|constructor].
    intros H. discriminate H. }
  rewrite Forall_forall in Hall.
  destruct (Hall m Hin Hrole) as (text & Hc & Hne & Ht).
  exists text. repeat (split; [assumption|]).
  destruct (trim_clean text) as [H1 H2]. rewrite Ht in H1, H2.
  split.
  - destruct text as [|c t]; [contradiction|]. cbn [hd].
    now apply trimStart_fixed_head with (t := t).
  - destruct (rev text) as [|c t] eqn:Hr; [reflexivity|]. cbn [hd].
    now apply trimStart_fixed_head with (t := t).
Qed.

Lemma user_turns_are_trimmed_witness :
  exists text,
    content (userTurn (lit "dry hair?")) = JStr text /\ text <> []
    /\ trim text = text
    /\ isWhiteSpace (hd 0%N text) = false
    /\ isWhiteSpace (hd 0%N (rev text)) = false.
Proof.
  refine (user_turns_are_trimmed demo []
            [Edit ([9; 32]%N ++ lit "dry hair?" ++ [160; 10]%N);
             Keydown (lit "Enter") false] _ (userTurn (lit "dry hair?")) _ _ _).
  - vm_compute. reflexivity.
  - vm_compute. right. left. reflexivity.
  - reflexivity.
Defined.

(** ** What the chat window shows *)

Lemma map_fresh_node (n : nat) (f : Element -> Element) (l : list Element) :
  (forall el, In el l -> node el < n) ->
  map (fun el => if node el =? n then f el else el) l = l.
Proof.
  induction l as [|a l IH]; intros H; cbn; [reflexivity|].
  rewrite IH by (intros el Hel; apply H; now right).
  assert (Ha : node a < n) by (apply H; now left).
  destruct (Nat.eqb_spec (node a) n); [lia | reflexivity].
Qed.

(** What a send appends to the chat window: nothing, the user bubble, or
    the user bubble and the indicator. *)
Lemma handleSend_renders env ev s :
  (forall el, In el (children s) -> node el < nextNode s) ->
  (children (run (handleSend env ev) s) = children s
   /\ pendingCalls (run (handleSend env ev) s) = pendingCalls s
   /\ timers (run (handleSend env ev) s) = timers s
   /\ nextNode s <= nextNode (run (handleSend env ev) s))
  \/ (children (run (handleSend env ev) s)
      = children s ++ [userBubble (nextNode s) (JStr (trim (value s)))]
      /\ pendingCalls (run (handleSend env ev) s) = pendingCalls s
      /\ timers (run (handleSend env ev) s) = timers s ++ [nextNode s]
      /\ nextNode (run (handleSend env ev) s) = S (nextNode s))
  \/ (complete env /\ trim (value s) <> []
      /\ children (run (handleSend env ev) s)
         = children s ++ [userBubble (nextNode s) (JStr (trim (value s)));
                          typingBubble (S (nextNode s))]
      /\ (exists r, pendingCalls (run (handleSend env ev) s)
                    = pendingCalls s ++ [{| typingEl := S (nextNode s); awaited := r |}])
      /\ timers (run (handleSend env ev) s) = timers s ++ [nextNode s]
      /\ nextNode (run (handleSend env ev) s) = S (S (nextNode s))).
Proof.
  intros Hfresh.
  destruct (userInput env) eqn:Hu.
  2:{ unfold run. rewrite handleSend_no_input by assumption. left. cbn. auto. }
  destruct (trim (value s)) as [|c t] eqn:Ht.
  { unfold run. rewrite handleSend_noop by assumption. left. cbn. auto. }
  page env; try discriminate; exec; cbn; rewrite Ht; cbn.
  - right. right. rewrite map_app, map_fresh_node by assumption. cbn.
    rewrite Nat.eqb_refl, <- app_assoc. cbn.
    repeat split; try reflexivity; try discriminate. eexists. reflexivity.
  - left. repeat split; lia.
  - right. left. rewrite map_app, map_fresh_node by assumption. cbn.
    rewrite Nat.eqb_refl. repeat split; reflexivity.
  - left. repeat split; lia.
Qed.

(** What the rest of a cycle does to the chat window: the indicator of the
    call goes and, where there is a chat window, one assistant bubble is
    appended, with the reply or with the error. *)
Lemma resume_renders env c fetched s :
  (forall el, In el (children s) -> node el < nextNode s) ->
  exists shown,
    (shown = match getChatCompletion_resume fetched with
             | Normal reply => reply
             | Throw message => JStr (lit "Error: " ++ message)
             end)
    /\ children (run (handleSend_resume env c fetched) s)
       = filter (fun el => negb (node el =? typingEl c)) (children s)
         ++ (if chatContainer env then [assistantBubble (nextNode s) shown] else [])
    /\ timers (run (handleSend_resume env c fetched) s)
       = timers s ++ (if chatContainer env then [nextNode s] else [])
    /\ nextNode (run (handleSend_resume env c fetched) s) = S (nextNode s).
Proof.
  intros Hfresh. eexists. split; [reflexivity|].
  assert (Hf : forall el,
            In el (filter (fun el => negb (node el =? typingEl c)) (children s)) ->
            node el < nextNode s).
  { intros el Hel. apply filter_In in Hel. apply Hfresh. tauto. }
  page env; exec; destruct (getChatCompletion_resume fetched); cbn;
    rewrite ?map_app, ?map_fresh_node by assumption; cbn;
    rewrite ?Nat.eqb_refl, ?app_nil_r; repeat split; reflexivity.
Qed.

Lemma step_tidy env ev s s' :
  step env ev s = Some s' -> tidy s -> tidy s'.
Proof.
  assert (Hsend : forall e, tidy s -> tidy (run (handleSend env e) s)).
  { intros e (Hn & Hp & Ht).
    destruct (handleSend_renders env e s Hn)
      as [(Hc & Hq & _ & Hle) | [(Hc & Hq & _ & Hnx) | (_ & _ & Hc & (r & Hq) & _ & Hnx)]];
      unfold tidy; rewrite Hc, Hq.
    - split; [|split].
      + intros el Hel. specialize (Hn el Hel). lia.
      + intros c Hc0. specialize (Hp c Hc0). lia.
      + assumption.
    - rewrite Hnx. split; [|split].
      + intros el Hel. apply in_app_iff in Hel. destruct Hel as [Hel | [<- | []]].
        * specialize (Hn el Hel). lia.
        * cbn. lia.
      + intros c Hc0. specialize (Hp c Hc0). lia.
      + intros el c Hel Hc0 Heq. apply in_app_iff in Hel.
        destruct Hel as [Hel | [<- | []]]; [eauto|].
        specialize (Hp c Hc0). cbn in Heq. lia.
    - rewrite Hnx. split; [|split].
      + intros el Hel. apply in_app_iff in Hel.
        destruct Hel as [Hel | [<- | [<- | []]]]; cbn; try lia.
        specialize (Hn el Hel). lia.
      + intros c Hc0. apply in_app_iff in Hc0.
        destruct Hc0 as [Hc0 | [<- | []]]; cbn; [|lia].
        specialize (Hp c Hc0). lia.
      + intros el c Hel Hc0 Heq. apply in_app_iff in Hel. apply in_app_iff in Hc0.
        destruct Hc0 as [Hc0 | [<- | []]];
          destruct Hel as [Hel | [<- | [<- | []]]]; cbn in *;
          try (specialize (Hp c Hc0)); try (specialize (Hn el Hel));
          try lia; eauto. }
  destruct ev as [v | | | key shiftKey | n fetched | n]; unfold step.
  - destruct (userInput env); [|discriminate]. intros [= <-]. auto.
  - intros [= <-]. auto.
  - destruct ((chatForm env || sendBtn env) && negb (sendBtn env && disabled s));
      [|discriminate]. intros [= <-]. auto.
  - destruct (userInput env && focused s); [|discriminate].
    destruct (streq key (lit "Enter") && negb shiftKey); intros [= <-]; auto.
  - destruct (takeCall n (pendingCalls s)) as [[c rest]|] eqn:Htake; [|discriminate].
    intros [= <-] (Hn & Hp & Ht).
    destruct (takeCall_split _ _ _ _ Htake) as (l1 & l2 & Hcs & -> & _).
    assert (Hsub : forall c0, In c0 (l1 ++ l2) -> In c0 (pendingCalls s)).
    { intros c0 H0. rewrite Hcs. apply in_app_iff in H0. apply in_app_iff.
      cbn. tauto. }
    destruct (resume_renders env c fetched
                (with_pendingCalls (fun _ => l1 ++ l2) s) Hn)
      as (shown & _ & Hc & _ & Hnx).
    destruct (resume_keeps env c fetched
                (with_pendingCalls (fun _ => l1 ++ l2) s)) as [_ Hq].
    cbn in Hc, Hnx, Hq. unfold tidy. rewrite Hc, Hnx, Hq.
    split; [|split].
    + intros el Hel. apply in_app_iff in Hel. destruct Hel as [Hel | Hel].
      * apply filter_In in Hel. destruct Hel as [Hel _]. specialize (Hn el Hel). lia.
      * destruct (chatContainer env); [|contradiction].
        destruct Hel as [<- | []]. cbn. lia.
    + intros c0 H0. specialize (Hp c0 (Hsub c0 H0)). lia.
    + intros el c0 Hel H0 Heq. apply in_app_iff in Hel. destruct Hel as [Hel | Hel].
      * apply filter_In in Hel. destruct Hel as [Hel _]. eauto.
      * destruct (chatContainer env); [|contradiction].
        destruct Hel as [<- | []]. specialize (Hp c0 (Hsub c0 H0)).
        cbn in Heq. lia.
  - destruct (takeTimer n (timers s)); [|discriminate].
    intros [= <-] (Hn & Hp & Ht). unfold tidy, run, updateNode, modify.
    cbn -[lit].
    split; [|split; [assumption|]].
    + intros el Hel. apply in_map_iff in Hel. destruct Hel as (el0 & <- & Hel0).
      destruct (remove_new_ok n el0) as [-> _]. auto.
    + intros el c Hel Hc Heq. apply in_map_iff in Hel.
      destruct Hel as (el0 & <- & Hel0).
      destruct (remove_new_ok n el0) as [Hnode Hkeep].
      apply Hkeep. rewrite Hnode in Heq. eauto.
Qed.

Lemma max_bounds (l : list nat) (n : nat) :
  In n l -> n <= fold_right Nat.max 0 l.
Proof.
  induction l as [|a l IH]; intros H; [destruct H|].
  cbn. destruct H as [-> | H]; [lia|]. specialize (IH H). lia.
Qed.

Lemma initial_tidy kids : tidy (initial kids).
Proof.
  split; [|split; [intros c [] | intros el c _ []]].
  intros el Hel. change (In el kids) in Hel.
  change (node el < S (fold_right Nat.max 0 (map node kids))).
  apply in_map with (f := node) in Hel. apply max_bounds in Hel. lia.
Qed.

Lemma steps_tidy env evs : forall s s',
  steps env evs s = Some s' -> tidy s -> tidy s'.
Proof.
  induction evs as [|ev evs IH]; intros s s'; cbn.
  - intros [= <-]. auto.
  - destruct (step env ev s) as [s1|] eqn:Hstep; [|discriminate].
    intros H Hs. eapply IH; [eassumption|]. eapply step_tidy; eassumption.
Qed.

Lemma step_keeps_bubbles env ev s s' el :
  step env ev s = Some s' -> tidy s ->
  In el (children s) -> ~ In (lit "typing") (classList el) ->
  exists el', In el' (children s') /\ sameBubble el el'
              /\ ~ In (lit "typing") (classList el').
Proof.
  intros Hstep (Hn & Hp & Ht) Hel Hnt.
  assert (Hsame : children s' = children s ->
            exists el', In el' (children s') /\ sameBubble el el'
                        /\ ~ In (lit "typing") (classList el')).
  { intros ->. exists el. repeat split; assumption. }
  assert (Happ : forall extra, children s' = children s ++ extra ->
            exists el', In el' (children s') /\ sameBubble el el'
                        /\ ~ In (lit "typing") (classList el')).
  { intros extra ->. exists el. rewrite in_app_iff. repeat split; auto. }
  assert (Hsend : forall e, s' = run (handleSend env e) s ->
            exists el', In el' (children s') /\ sameBubble el el'
                        /\ ~ In (lit "typing") (classList el')).
  { intros e ->.
    destruct (handleSend_renders env e s Hn)
      as [(Hc & _) | [(Hc & _) | (_ & _ & Hc & _)]]; eauto. }
  destruct ev as [v | | | key shiftKey | n fetched | n]; unfold step in Hstep.
  - destruct (userInput env); [|discriminate]. injection Hstep as <-. auto.
  - injection Hstep as <-. auto.
  - destruct ((chatForm env || sendBtn env) && negb (sendBtn env && disabled s));
      [|discriminate]. injection Hstep as Hs. eauto.
  - destruct (userInput env && focused s); [|discriminate].
    destruct (streq key (lit "Enter") && negb shiftKey);
      injection Hstep as Hs; [eauto | subst; auto].
  - destruct (takeCall n (pendingCalls s)) as [[c rest]|] eqn:Htake; [|discriminate].
    injection Hstep as <-.
    destruct (takeCall_split _ _ _ _ Htake) as (l1 & l2 & Hcs & -> & _).
    destruct (resume_renders env c fetched
                (with_pendingCalls (fun _ => l1 ++ l2) s) Hn)
      as (shown & _ & Hc & _).
    cbn in Hc. exists el. rewrite Hc, in_app_iff. split; [|repeat split; assumption].
    left. apply filter_In. split; [assumption|].
    apply negb_true_iff, Nat.eqb_neq. intros Heq. apply Hnt.
    apply (Ht el c); [assumption | | assumption].
    rewrite Hcs, in_app_iff. cbn. tauto.
  - destruct (takeTimer n (timers s)); [|discriminate]. injection Hstep as <-.
    unfold run, updateNode, modify. cbn -[lit].
    exists (if node el =? n then classList_remove (lit "new") el else el).
    split; [apply in_map_iff; eexists; split; [reflexivity | assumption]|].
    destruct (node el =? n); repeat split; try assumption.
    intros H. apply Hnt. cbn -[lit] in H. apply filter_In in H. tauto.
Qed.

(** X8: a bubble, once in the chat window, stays.  From a reachable state
    on, whatever happens next, every element of the chat window that is
    not a typing indicator (the bubbles of the user, of the assistant and
    of errors, and what the page held at first) is still in the chat
    window with its label and its text; only its classes may change. *)
Theorem rendered_bubbles_stay
    (env : Env) (kids : list Element) (evs evs' : list Event)
    (s s' : State) (el : Element) :
  steps env evs (initial kids) = Some s -> steps env evs' s = Some s' ->
  In el (children s) -> ~ In (lit "typing") (classList el) ->
  exists el',
    In el' (children s') /\ node el' = node el
    /\ labelText el' = labelText el /\ contentText el' = contentText el.
Proof.
  intros Hs Hs' Hel Hnt.
  pose proof (steps_tidy _ _ _ _ Hs (initial_tidy kids)) as Htidy.
  clear Hs. revert s el Htidy Hel Hnt Hs'.
  induction evs' as [|ev evs' IH]; intros s el Htidy Hel Hnt; cbn.
  - intros [= <-]. exists el. auto.
  - destruct (step env ev s) as [s1|] eqn:Hstep; [|discriminate]. intros Hs'.
    destruct (step_keeps_bubbles _ _ _ _ _ Hstep Htidy Hel Hnt)
      as (el1 & Hel1 & (Hn1 & Hl1 & Hc1) & Hnt1).
    destruct (IH s1 el1 (step_tidy _ _ _ _ Hstep Htidy) Hel1 Hnt1 Hs')
      as (el' & Hel' & Hn' & Hl' & Hc').
    exists el'. repeat split; congruence.
Qed.

Lemma rendered_bubbles_stay_witness :
  exists s s',
    steps demo [Edit (lit "a"); Submit] (initial []) = Some s
    /\ steps demo [Settle 2 (Normal (replyWith (JStr (lit "hi"))))] s = Some s'
    /\ exists el',
         In el' (children s') /\ node el' = 1
         /\ labelText el' = lit "User: " /\ contentText el' = JStr (lit "a").
Proof.
  eexists. eexists.
  split; [vm_compute; reflexivity|]. split; [vm_compute; reflexivity|].
  refine (rendered_bubbles_stay demo []
            [Edit (lit "a"); Submit]
            [Settle 2 (Normal (replyWith (JStr (lit "hi"))))]
            _ _ (userBubble 1 (JStr (lit "a"))) _ _ _ _).
  - vm_compute. reflexivity.
  - vm_compute. reflexivity.
  - vm_compute. left. reflexivity.
  - vm_compute. intros [H | [H | [H | [H | []]]]]; discriminate H.
Defined.





(** ** The [new] mark of a bubble *)

Lemma takeTimer_other (n m : nat) : forall ts rest,
  takeTimer n ts = Some rest -> In m ts -> m <> n -> In m rest.
Proof.
  induction ts as [|t ts IH]; intros rest; cbn; [discriminate|].
  destruct (Nat.eqb_spec t n) as [-> | Hne].
  - intros [= <-] [Heq | Hin] Hm; [congruence | assumption].
  - destruct (takeTimer n ts) as [rest'|]; [|discriminate].
    intros [= <-] [Heq | Hin] Hm; [now left | right; eauto].
Qed.

Lemma remove_new_gone (el : Element) :
  ~ In (lit "new") (classList (classList_remove (lit "new") el)).
Proof.
  intros H. cbn -[lit] in H. apply filter_In in H. destruct H as [_ H].
  unfold streq in H. destruct (list_eq_dec N.eq_dec (lit "new") (lit "new"));
    [discriminate | contradiction].
Qed.

Lemma step_newTimed env ev s s' :
  step env ev s = Some s' -> tidy s -> newTimed s -> newTimed s'.
Proof.
  intros Hstep (Hn & _ & _) Hnew.
  assert (Hsend : forall e, newTimed (run (handleSend env e) s)).
  { intros e. unfold newTimed.
    destruct (handleSend_renders env e s Hn)
      as [(Hc & _ & Ht & _) | [(Hc & _ & Ht & _) | (_ & _ & Hc & _ & Ht & _)]];
      rewrite Hc, Ht; [exact Hnew | |].
    - intros el Hel Hcl. apply in_app_iff. apply in_app_iff in Hel.
      destruct Hel as [Hel | [<- | []]]; [left; auto | right; now left].
    - intros el Hel Hcl. apply in_app_iff. apply in_app_iff in Hel.
      destruct Hel as [Hel | [<- | [<- | []]]]; [left; auto | right; now left |].
      cbn in Hcl. destruct Hcl as [H | [H | [H | [H | []]]]]; discriminate H. }
  destruct ev as [v | | | key shiftKey | n fetched | n]; unfold step in Hstep.
  - destruct (userInput env); [|discriminate]. injection Hstep as <-. exact Hnew.
  - injection Hstep as <-. exact Hnew.
  - destruct ((chatForm env || sendBtn env) && negb (sendBtn env && disabled s));
      [|discriminate]. injection Hstep as <-. auto.
  - destruct (userInput env && focused s); [|discriminate].
    destruct (streq key (lit "Enter") && negb shiftKey);
      injection Hstep as <-; auto.
  - destruct (takeCall n (pendingCalls s)) as [[c rest]|]; [|discriminate].
    injection Hstep as <-.
    destruct (resume_renders env c fetched
                (with_pendingCalls (fun _ => rest) s) Hn)
      as (shown & _ & Hc & Ht & _).
    cbn in Hc, Ht. unfold newTimed. rewrite Hc, Ht.
    intros el Hel Hcl. apply in_app_iff. apply in_app_iff in Hel.
    destruct Hel as [Hel | Hel].
    + left. apply filter_In in Hel. apply Hnew; tauto.
    + right. destruct (chatContainer env); [|contradiction].
      destruct Hel as [<- | []]. now left.
  - destruct (takeTimer n (timers s)) as [rest|] eqn:Htake; [|discriminate].
    injection Hstep as <-. unfold newTimed, run, updateNode, modify.
    cbn -[lit]. intros el Hel Hcl. apply in_map_iff in Hel.
    destruct Hel as (el0 & <- & Hel0).
    destruct (Nat.eqb_spec (node el0) n) as [Heq | Hne].
    + now apply remove_new_gone in Hcl.
    + apply (takeTimer_other n (node el0) (timers s)); auto.
Qed.

(** X10: the [new] mark of a bubble is there only while its timer runs.
    On a page whose chat window holds no element marked [new] at first, in
    every reachable state each bubble that has the class [new] has a timer
    of [addMessage] still to run; so when no timer is left none has the
    class, and the timer of a bubble, when it runs, takes the class off. *)
Theorem new_mark_lasts_until_timer
    (env : Env) (kids : list Element) (evs : list Event) (s : State) :
  (forall el, In el kids -> ~ In (lit "new") (classList el)) ->
  steps env evs (initial kids) = Some s ->
  (forall el, In el (children s) -> In (lit "new") (classList el) ->
     In (node el) (timers s))
  /\ (timers s = [] ->
      forall el, In el (children s) -> ~ In (lit "new") (classList el))
  /\ (forall n s' el, step env (Timer n) s = Some s' ->
        In el (children s') -> node el = n -> ~ In (lit "new") (classList el)).
Proof.
  intros Hkids Hs.
  assert (G : forall evs s0 s, steps env evs s0 = Some s ->
            tidy s0 -> newTimed s0 -> newTimed s).
  { clear. intros evs. induction evs as [|ev evs IH]; intros s0 s; cbn.
    - intros [= <-]. auto.
    - destruct (step env ev s0) as [s1|] eqn:Hstep; [|discriminate].
      intros H Ht Hn. eapply IH; [eassumption | |].
      + eapply step_tidy; eassumption.
      + eapply step_newTimed; eassumption. }
  assert (Hnew : newTimed s).
  { eapply G; [eassumption | apply initial_tidy |].
    intros el Hel Hcl. destruct (Hkids el Hel Hcl). }
  split; [exact Hnew|]. split.
  - intros Ht el Hel Hcl. specialize (Hnew el Hel Hcl). rewrite Ht in Hnew.
    destruct Hnew.
  - intros n s' el. unfold step.
    destruct (takeTimer n (timers s)); [|discriminate]. intros [= <-].
    unfold run, updateNode, modify. cbn -[lit]. intros Hel Hn Hcl.
    apply in_map_iff in Hel. destruct Hel as (el0 & <- & Hel0).
    destruct (Nat.eqb_spec (node el0) n) as [Heq | Hne];
      [now apply remove_new_gone in Hcl | contradiction].
Qed.

Lemma new_mark_lasts_until_timer_witness :
  exists s,
    steps demo [Edit (lit "a"); Submit; Timer 1] (initial []) = Some s
    /\ (timers s = [] ->
        forall el, In el (children s) -> ~ In (lit "new") (classList el)).
Proof.
  eexists. split; [vm_compute; reflexivity|].
  refine (proj1 (proj2 (new_mark_lasts_until_timer demo []
            [Edit (lit "a"); Submit; Timer 1] _ _ _))).
  - intros el [].
  - vm_compute. reflexivity.
Defined.

(** ** [addMessage] on its own *)



(** ** The key *)

(** X12: [apiKey] is the first of [OPENAI_API_KEY], [API_KEY] and
    [OPENAI_KEY] that is truthy and, when none is (all missing, or empty),
    the empty string: it is never [undefined], and it is falsy only as the
    empty string. *)
Theorem apiKey_first_truthy_or_empty (p : Page) (w : Window) :
  (truthy (OPENAI_API_KEY w) = true -> apiKey (load p w) = OPENAI_API_KEY w)
  /\ (truthy (OPENAI_API_KEY w) = false -> truthy (API_KEY w) = true ->
      apiKey (load p w) = API_KEY w)
  /\ (truthy (OPENAI_API_KEY w) = false -> truthy (API_KEY w) = false ->
      truthy (OPENAI_KEY w) = true -> apiKey (load p w) = OPENAI_KEY w)
  /\ (truthy (OPENAI_API_KEY w) = false -> truthy (API_KEY w) = false ->
      truthy (OPENAI_KEY w) = false -> apiKey (load p w) = Some (JStr (lit "")))
  /\ apiKey (load p w) <> undefined
  /\ (truthy (apiKey (load p w)) = false -> apiKey (load p w) = Some (JStr (lit ""))).
Proof.
  unfold load, jsOr. cbn [apiKey].
  destruct (truthy (OPENAI_API_KEY w)) eqn:H1;
    destruct (truthy (API_KEY w)) eqn:H2;
    destruct (truthy (OPENAI_KEY w)) eqn:H3;
    repeat split; try discriminate; try reflexivity; try congruence.
  all: try (intros Hu; rewrite Hu in *; discriminate).
Qed.

(** ** The outcome of a call *)

(** X13: when [getChatCompletion] returns and what it throws.  It returns
    a reply exactly for a response with a 2xx status whose body parses and
    holds a truthy [choices[0].message.content], the reply; and a message
    it throws is the one of the rejected [fetch], of the rejected body
    read, ["API request failed: "] with status and body text, or ["No
    assistant message found in API response."]: no other failure
    exists. *)
Theorem completion_outcomes (fetched : Completion Response) :
  (forall reply,
     succeeds fetched reply <->
     exists resp data,
       fetched = Normal resp /\ ok resp = true /\ json_ resp = Normal data
       /\ assistantContent data = Some reply /\ truthy (Some reply) = true)
  /\ (forall message,
        fails fetched message ->
        fetched = Throw message
        \/ exists resp,
             fetched = Normal resp
             /\ ((ok resp = false /\ text resp = Throw message)
                 \/ (ok resp = false
                     /\ exists errText,
                          text resp = Normal errText
                          /\ message = lit "API request failed: "
                                       ++ ofNumber (status resp) ++ lit " " ++ errText)
                 \/ (ok resp = true /\ json_ resp = Throw message)
                 \/ (ok resp = true
                     /\ message = lit "No assistant message found in API response."
                     /\ exists data,
                          json_ resp = Normal data
                          /\ truthy (assistantContent data) = false))).
Proof.
  split.
  - intros reply. split; [apply reply_read|].
    intros (resp & data & -> & Hok & Hj & Hc & Ht).
    unfold succeeds, getChatCompletion_resume, cbind.
    rewrite Hok, Hj, Hc. cbv [negb]. rewrite Ht. reflexivity.
  - intros message. unfold fails, getChatCompletion_resume, cbind.
    destruct fetched as [resp|m]; [|intros [= ->]; now left].
    intros H. right. exists resp. split; [reflexivity|].
    destruct (ok resp) eqn:Hok; cbv [negb] in H.
    + destruct (json_ resp) as [data|m] eqn:Hj.
      * right. right. right. split; [reflexivity|].
        destruct (assistantContent data) as [v|] eqn:Hc.
        -- destruct (truthy (Some v)) eqn:Ht; [discriminate|].
           injection H as <-. split; [reflexivity|]. exists data.
           rewrite Hc. auto.
        -- injection H as <-. split; [reflexivity|]. exists data.
           rewrite Hc. auto.
      * injection H as <-. right. right. left. auto.
    + destruct (text resp) as [errText|m] eqn:Ht.
      * injection H as <-. right. left. split; [reflexivity|]. eauto.
      * injection H as <-. left. auto.
Qed.

(** ** The logo of the first revision *)

Lemma streq_spec (a b : jsstring) : streq a b = true <-> a = b.
Proof.
  unfold streq. destruct (list_eq_dec N.eq_dec a b); split; congruence.
Qed.

Lemma classList_add_one (t c : jsstring) (el : Element) :
  In c (classList (classList_add [t] el)) <-> In c (classList el) \/ c = t.
Proof.
  cbn. destruct (existsb (streq t) (classList el)) eqn:He.
  - apply existsb_exists in He. destruct He as (x & Hx & Heq).
    apply streq_spec in Heq. subst x. split; [tauto|].
    intros [H | ->]; assumption.
  - rewrite in_app_iff. cbn. split; [intros [H | [<- | []]] | intros [H | ->]]; auto.
Qed.

Lemma classList_remove_one (t c : jsstring) (el : Element) :
  In c (classList (classList_remove t el)) <-> In c (classList el) /\ c <> t.
Proof.
  cbn. rewrite filter_In, negb_true_iff. split; intros [H1 H2]; split; auto.
  - intros Heq. apply streq_spec in Heq. congruence.
  - destruct (streq c t) eqn:He; [|reflexivity].
    apply streq_spec in He. contradiction.
Qed.

(** One event on a page that has the image and the fallback, once the
    listeners are there. *)
Lemma dispatch_one (q : Starter.Page) (ev : Starter.PageEvent)
    (img : jsstring) (fb : Element) :
  Starter.listening q = true ->
  Starter.logoImg q = Some img -> Starter.fallback q = Some fb ->
  Starter.listening (Starter.dispatch ev q) = true
  /\ Starter.logoImg (Starter.dispatch ev q)
     = Some (match ev with
             | Starter.contentLoaded => img
             | Starter.error => lit "0"
             | Starter.load => lit "1"
             end)
  /\ Starter.fallback (Starter.dispatch ev q)
     = Some (match ev with
             | Starter.contentLoaded => fb
             | Starter.error => classList_add [lit "show"] fb
             | Starter.load => classList_remove (lit "show") fb
             end)
  /\ Starter.chatWindow (Starter.dispatch ev q) = Starter.chatWindow q.
Proof.
  intros Hl Hi Hf. unfold Starter.dispatch, Starter.onContentLoaded.
  rewrite Hl, Hi.
  destruct ev; unfold Starter.onError, Starter.onLoad;
    cbn [Starter.logoImg Starter.fallback Starter.chatWindow Starter.listening];
    rewrite ?Hi, ?Hf, ?Hl; repeat split.
Qed.

Lemma dispatchAll_app (evs1 evs2 : list Starter.PageEvent) (p : Starter.Page) :
  Starter.dispatchAll (evs1 ++ evs2) p
  = Starter.dispatchAll evs2 (Starter.dispatchAll evs1 p).
Proof. unfold Starter.dispatchAll. apply fold_left_app. Qed.

(** Before the callback of [DOMContentLoaded] has run no image event is
    handled. *)
Lemma dispatchAll_unheard (p : Starter.Page) :
  Starter.listening p = false ->
  forall evs, ~ In Starter.contentLoaded evs -> Starter.dispatchAll evs p = p.
Proof.
  intros Hl evs. induction evs as [|ev evs IH] using rev_ind; intros Hn.
  - reflexivity.
  - rewrite dispatchAll_app, IH by (intros H; apply Hn, in_app_iff; now left).
    cbn. destruct ev; cbn; rewrite ?Hl; try reflexivity.
    destruct Hn. apply in_app_iff. right. now left.
Qed.

(** After any events a page whose listeners are there, and that has the
    image and the fallback, still has them, and of the classes of the
    fallback only [show] may differ. *)
Lemma dispatchAll_keeps (p : Starter.Page) (img : jsstring) (fb : Element) :
  Starter.listening p = true ->
  Starter.logoImg p = Some img -> Starter.fallback p = Some fb ->
  forall evs, exists img' fb',
    Starter.listening (Starter.dispatchAll evs p) = true
    /\ Starter.logoImg (Starter.dispatchAll evs p) = Some img'
    /\ Starter.fallback (Starter.dispatchAll evs p) = Some fb'
    /\ (forall c, c <> lit "show" -> (In c (classList fb') <-> In c (classList fb)))
    /\ Starter.chatWindow (Starter.dispatchAll evs p) = Starter.chatWindow p.
Proof.
  intros Hl Hi Hf evs. induction evs as [|ev evs IH] using rev_ind.
  - exists img, fb. repeat split; auto.
  - destruct IH as (img' & fb' & Hl' & Hi' & Hf' & Hc & Hw).
    rewrite dispatchAll_app. cbn.
    destruct (dispatch_one _ ev img' fb' Hl' Hi' Hf') as (H0 & H1 & H2 & H3).
    eexists _, _. split; [exact H0|]. split; [exact H1|]. split; [exact H2|].
    split; [|congruence].
    intros c Hne. rewrite <- (Hc c Hne). destruct ev.
    + tauto.
    + rewrite (classList_add_one (lit "show") c fb'). tauto.
    + rewrite (classList_remove_one (lit "show") c fb'). tauto.
Qed.

(** X14: the logo fallback follows the last image event that found its
    listener.  On a page that has the logo image and the fallback, the
    image events that come before [DOMContentLoaded] change nothing, their
    listeners not being registered yet; and once [DOMContentLoaded] has
    come, after whatever follows, the fallback has the class [show] exactly
    when the last image event was [error], the opacity of the image is
    ["0"] then and ["1"] otherwise, the other classes of the fallback are
    the ones it had, and the chat window is untouched. *)
Theorem logo_fallback_follows_last_event
    (p : Starter.Page) (before after : list Starter.PageEvent)
    (ev : Starter.PageEvent) (img : jsstring) (fb : Element) :
  Starter.listening p = false ->
  Starter.logoImg p = Some img -> Starter.fallback p = Some fb ->
  ~ In Starter.contentLoaded before -> ev <> Starter.contentLoaded ->
  Starter.dispatchAll before p = p
  /\ exists fb',
       Starter.logoImg
         (Starter.dispatchAll
            (before ++ Starter.contentLoaded :: after ++ [ev]) p)
       = Some (match ev with Starter.error => lit "0" | _ => lit "1" end)
       /\ Starter.fallback
            (Starter.dispatchAll
               (before ++ Starter.contentLoaded :: after ++ [ev]) p)
          = Some fb'
       /\ (In (lit "show") (classList fb') <-> ev = Starter.error)
       /\ (forall c, c <> lit "show" ->
             (In c (classList fb') <-> In c (classList fb)))
       /\ Starter.chatWindow
            (Starter.dispatchAll
               (before ++ Starter.contentLoaded :: after ++ [ev]) p)
          = Starter.chatWindow p.
Proof.
  intros Hl Hi Hf Hbefore Hev.
  pose proof (dispatchAll_unheard p Hl before Hbefore) as Hsame.
  split; [exact Hsame|].
  rewrite dispatchAll_app, Hsame.
  change (Starter.contentLoaded :: after ++ [ev])
    with ([Starter.contentLoaded] ++ after ++ [ev]).
  rewrite dispatchAll_app, dispatchAll_app.
  set (q := Starter.dispatchAll [Starter.contentLoaded] p).
  assert (Hq : Starter.listening q = true /\ Starter.logoImg q = Some img
               /\ Starter.fallback q = Some fb
               /\ Starter.chatWindow q = Starter.chatWindow p).
  { subst q. cbn. unfold Starter.onContentLoaded. rewrite Hi. cbn. auto. }
  destruct Hq as (Hlq & Hiq & Hfq & Hwq).
  destruct (dispatchAll_keeps q img fb Hlq Hiq Hfq after)
    as (img' & fb' & Hl' & Hi' & Hf' & Hc & Hw).
  cbn [Starter.dispatchAll fold_left].
  change (fold_left (fun q0 ev0 => Starter.dispatch ev0 q0) after q)
    with (Starter.dispatchAll after q).
  destruct (dispatch_one _ ev img' fb' Hl' Hi' Hf') as (_ & H1 & H2 & H3).
  eexists. split; [|split; [exact H2|split; [|split; [|congruence]]]].
  - rewrite H1. destruct ev; [contradiction | reflexivity | reflexivity].
  - destruct ev; [contradiction | |].
    + split; [reflexivity|]. intros _.
      apply (classList_add_one (lit "show") (lit "show") fb'). now right.
    + split; [|discriminate]. intros H.
      apply (classList_remove_one (lit "show") (lit "show") fb') in H.
      destruct H as [_ H]. now destruct H.
  - intros c Hne. rewrite <- (Hc c Hne). destruct ev; [contradiction | |].
    + rewrite (classList_add_one (lit "show") c fb'). tauto.
    + rewrite (classList_remove_one (lit "show") c fb'). tauto.
Qed.

(** An [error] that comes too early is lost; a later one is handled. *)
Lemma logo_fallback_follows_last_event_witness :
  exists fb',
    Starter.fallback
      (Starter.dispatchAll
         [Starter.error; Starter.contentLoaded; Starter.load; Starter.error]
         {| Starter.logoImg := Some (lit "");
            Starter.fallback := Some {| node := 0;
                                        classList := [lit "logo-fallback"];
                                        labelText := lit "";
                                        contentText := JStr (lit "L'OREAL") |};
            Starter.chatWindow := Starter.greeting;
            Starter.listening := false |})
    = Some fb'
    /\ classList fb' = [lit "logo-fallback"; lit "show"].
Proof.
  destruct (logo_fallback_follows_last_event
              {| Starter.logoImg := Some (lit "");
                 Starter.fallback := Some {| node := 0;
                                             classList := [lit "logo-fallback"];
                                             labelText := lit "";
                                             contentText := JStr (lit "L'OREAL") |};
                 Starter.chatWindow := Starter.greeting;
                 Starter.listening := false |}
              [Starter.error] [Starter.load] Starter.error (lit "") _
              eq_refl eq_refl eq_refl) as (_ & fb' & _ & Hf & _).
  - intros [H | []]. discriminate H.
  - discriminate.
  - exists fb'. split; [exact Hf|].
    vm_compute in Hf. injection Hf as <-. reflexivity.
Defined.

(** ** Question and answer *)








(** With Enter in the input field the pairing is lost: the second of two
    replies follows an assistant turn. *)
Example enter_path_unpairs_turns :
  exists s,
    steps demo [Edit (lit "a"); Keydown (lit "Enter") false;
                Edit (lit "b"); Keydown (lit "Enter") false;
                Settle 2 (Normal (replyWith (JStr (lit "x"))));
                Settle 4 (Normal (replyWith (JStr (lit "y"))))] (initial [])
    = Some s
    /\ map role (messages s)
       = [lit "system"; lit "user"; lit "user"; lit "assistant"; lit "assistant"].
Proof. eexists. split; vm_compute; reflexivity. Qed.
